(** * circuitbreaker: a shallow embedding of [circuitbreaker/circuitbreaker.py]

    The breaker's three shared fields, the clock it reads, the stats sink it
    reports to and the process-wide monitor are threaded through a small
    state-and-exception monad over a [World].  Objects live in a store
    indexed by address, so the monitor and a [CircuitBreakerError] refer to
    a breaker the way the Python objects do: by reference.

    Time values are binary64 numbers, added, subtracted and compared as
    IEEE 754 has it: [_opened] is a [c_double], the clock gives a finite
    number of seconds since the epoch, and the recovery timeout is any
    float, infinities and NaN included (an integer given as timeout stands
    here as the float that its addition to [_opened] turns it into).  The
    failure counter is a C [int] and wraps around. *)

From Stdlib Require Import ZArith Lia String Ascii List Bool.
From Stdlib Require Import DecimalString Floats.
From stdpp Require Import gmap strings.
Import ListNotations.

Local Open Scope Z_scope.

(** ** Values *)

(** Modelled from the spec: the constants of [circuitbreaker.states], which
    is not among the sources; three pairwise distinct state names. *)
Inductive state_name := STATE_CLOSED | STATE_OPEN | STATE_HALF_OPEN.

Definition state_eqb (a b : state_name) : bool :=
  match a, b with
  | STATE_CLOSED, STATE_CLOSED
  | STATE_OPEN, STATE_OPEN
  | STATE_HALF_OPEN, STATE_HALF_OPEN => true
  | _, _ => false
  end.

(** [ctypes.c_int]: a store of an out-of-range Python integer keeps the low
    32 bits, read back as a signed value. *)
Definition INT_MAX : Z := 2147483647.
Definition INT_MIN : Z := -2147483648.
Definition c_int (z : Z) : Z := (z + 2147483648) mod 4294967296 - 2147483648.

(** Exception classes are known by name; an exception instance carries the
    method resolution order of its class. *)
Definition pyclass := string.
Record pyexc := { exc_mro : list pyclass; exc_args : string }.

Definition addr := nat.

(** What gets raised, by a breaker, by a wrapped operation or by a builtin:
    a [CircuitBreakerError], which holds a reference to the breaker that
    rejected a call, or an exception of another class. *)
Inductive exn :=
| CircuitBreakerError (_circuit_breaker : addr)
| PythonError (e : pyexc).

Definition mro (x : exn) : list pyclass :=
  match x with
  | CircuitBreakerError _ =>
      ["CircuitBreakerError"; "Exception"; "BaseException"; "object"]%string
  | PythonError e => exc_mro e
  end.

Definition isinstance (x : exn) (c : pyclass) : bool :=
  existsb (String.eqb c) (mro x).

(** ** The breaker object *)

Record CircuitBreaker := mkCircuitBreaker {
  _failure_count : Z;            (* multiprocessing.Value(c_int) *)
  _failure_threshold : Z;
  _recovery_timeout : float;
  _expected_exception : pyclass;
  _name : option string;
  _state : state_name;           (* multiprocessing.Value(c_char_p) *)
  _opened : float                (* multiprocessing.Value(c_double) *)
}.

Definition FAILURE_THRESHOLD : Z := 5.
Definition RECOVERY_TIMEOUT : float := 30%float.
Definition EXPECTED_EXCEPTION : pyclass := "Exception"%string.

Definition with_failure_count (v : Z) (b : CircuitBreaker) :=
  mkCircuitBreaker v (_failure_threshold b) (_recovery_timeout b)
    (_expected_exception b) (_name b) (_state b) (_opened b).
Definition with_failure_threshold (v : Z) (b : CircuitBreaker) :=
  mkCircuitBreaker (_failure_count b) v (_recovery_timeout b)
    (_expected_exception b) (_name b) (_state b) (_opened b).
Definition with_recovery_timeout (v : float) (b : CircuitBreaker) :=
  mkCircuitBreaker (_failure_count b) (_failure_threshold b) v
    (_expected_exception b) (_name b) (_state b) (_opened b).
Definition with_expected_exception (v : pyclass) (b : CircuitBreaker) :=
  mkCircuitBreaker (_failure_count b) (_failure_threshold b)
    (_recovery_timeout b) v (_name b) (_state b) (_opened b).
Definition with_name (v : option string) (b : CircuitBreaker) :=
  mkCircuitBreaker (_failure_count b) (_failure_threshold b)
    (_recovery_timeout b) (_expected_exception b) v (_state b) (_opened b).
Definition with_state (v : state_name) (b : CircuitBreaker) :=
  mkCircuitBreaker (_failure_count b) (_failure_threshold b)
    (_recovery_timeout b) (_expected_exception b) (_name b) v (_opened b).
Definition with_opened (v : float) (b : CircuitBreaker) :=
  mkCircuitBreaker (_failure_count b) (_failure_threshold b)
    (_recovery_timeout b) (_expected_exception b) (_name b) (_state b) v.

(** Python's [x or default]: [None] and zero are falsy (for a float both
    zeros are, and NaN is not). *)
Definition or_int (x : option Z) (d : Z) : Z :=
  match x with
  | Some v => if Z.eqb v 0 then d else v
  | None => d
  end.
Definition or_seconds (x : option float) (d : float) : float :=
  match x with
  | Some v => if (v =? 0)%float then d else v
  | None => d
  end.
Definition or_class (x : option pyclass) (d : pyclass) : pyclass :=
  match x with
  | Some c => c
  | None => d
  end.

(** ** The world *)

(** Modelled from the spec: the three recorders of [circuitbreaker.stats],
    which is not among the sources; fire-and-forget, each call leaves one
    event in the sink. *)
Inductive stats_event :=
| StateEvent (name : option string) (st : state_name)
| SuccessTotalEvent (name : option string) (st : state_name)
| FailureTotalEvent (name : option string) (st : state_name).

(** What [unix_time_seconds(datetime.utcnow())] gives: a number of seconds,
    never an infinity nor a NaN. *)
Record instant := at_seconds {
  seconds : float;
  seconds_finite : is_finite seconds = true
}.

Record World (S : Type) := mkWorld {
  clock : nat -> instant;        (* what successive utcnow() reads return *)
  ticks : nat;                   (* how many reads happened so far *)
  heap : addr -> CircuitBreaker;
  circuit_breakers : gmap (option string) addr;   (* the monitor's dict *)
  stats : list stats_event;
  env : S                        (* whatever the wrapped operations act on *)
}.
Arguments mkWorld {S}.
Arguments clock {S}.
Arguments ticks {S}.
Arguments heap {S}.
Arguments circuit_breakers {S}.
Arguments stats {S}.
Arguments env {S}.

Inductive Res (T : Type) :=
| Ok (v : T)
| Raise (x : exn).
Arguments Ok {T}.
Arguments Raise {T}.

Definition M (S T : Type) := World S -> Res T * World S.

Definition ret {S T : Type} (v : T) : M S T := fun w => (Ok v, w).
Definition bind {S T U : Type} (c : M S T) (k : T -> M S U) : M S U :=
  fun w => match c w with
           | (Ok v, w') => k v w'
           | (Raise x, w') => (Raise x, w')
           end.
Definition raise {S T : Type} (x : exn) : M S T := fun w => (Raise x, w).

Notation "x <- c ;; k" := (bind c (fun x => k))
  (at level 100, c at next level, right associativity).
Notation "c ;; k" := (bind c (fun _ => k))
  (at level 100, right associativity).

(** [try: body / except cls: handler]; [cls] is looked up when an exception
    arrives, and the handler sees the exception it caught. *)
Definition try_except {S T : Type} (body : M S T) (cls : M S pyclass)
    (handler : exn -> M S T) : M S T :=
  fun w => match body w with
           | (Ok v, w') => (Ok v, w')
           | (Raise x, w') =>
               match cls w' with
               | (Ok c, w'') =>
                   if isinstance x c then handler x w'' else (Raise x, w'')
               | (Raise y, w'') => (Raise y, w'')
               end
           end.

(** [try: body / finally: cleanup]. *)
Definition try_finally {S T : Type} (body : M S T) (cleanup : M S unit) : M S T :=
  fun w => match body w with
           | (r, w') =>
               match cleanup w' with
               | (Ok _, w'') => (r, w'')
               | (Raise y, w'') => (Raise y, w'')
               end
           end.

(** World updates the breaker's code performs. *)
Definition tick {S : Type} (w : World S) : World S :=
  mkWorld (clock w) (Datatypes.S (ticks w)) (heap w) (circuit_breakers w)
    (stats w) (env w).
Definition store {S : Type} (a : addr) (b : CircuitBreaker) (w : World S) : World S :=
  mkWorld (clock w) (ticks w)
    (fun a' => if Nat.eqb a' a then b else heap w a')
    (circuit_breakers w) (stats w) (env w).
Definition log {S : Type} (e : stats_event) (w : World S) : World S :=
  mkWorld (clock w) (ticks w) (heap w) (circuit_breakers w)
    (stats w ++ [e]) (env w).
Definition with_env {S : Type} (s : S) (w : World S) : World S :=
  mkWorld (clock w) (ticks w) (heap w) (circuit_breakers w) (stats w) s.
Definition with_circuit_breakers {S : Type} (m : gmap (option string) addr)
    (w : World S) : World S :=
  mkWorld (clock w) (ticks w) (heap w) m (stats w) (env w).

(** The instant the next clock read returns. *)
Definition now {S : Type} (w : World S) : float :=
  seconds (clock w (ticks w)).

Section Breaker.
Context {S : Type}.

(** [unix_time_seconds(datetime.utcnow())] *)
Definition utcnow : M S float := fun w => (Ok (now w), tick w).

Definition getattr {T : Type} (self : addr) (f : CircuitBreaker -> T) : M S T :=
  fun w => (Ok (f (heap w self)), w).

Definition setattr (self : addr) (f : CircuitBreaker -> CircuitBreaker)
    : M S unit :=
  fun w => (Ok tt, store self (f (heap w self)) w).

Definition emit (e : stats_event) : M S unit := fun w => (Ok tt, log e w).

Definition record_circuit_breaker_state name st : M S unit :=
  emit (StateEvent name st).
Definition record_circuit_breaker_success_total name st : M S unit :=
  emit (SuccessTotalEvent name st).
Definition record_circuit_breaker_failure_total name st : M S unit :=
  emit (FailureTotalEvent name st).

Definition __init__ (self : addr) (failure_threshold : option Z)
    (recovery_timeout : option float) (expected_exception : option pyclass)
    (name : option string) : M S unit :=
  setattr self (with_failure_count (c_int 0)) ;;
  setattr self
    (with_failure_threshold (or_int failure_threshold FAILURE_THRESHOLD)) ;;
  setattr self
    (with_recovery_timeout (or_seconds recovery_timeout RECOVERY_TIMEOUT)) ;;
  setattr self
    (with_expected_exception
       (or_class expected_exception EXPECTED_EXCEPTION)) ;;
  setattr self (with_name name) ;;
  setattr self (with_state STATE_CLOSED) ;;
  now <- utcnow ;;
  setattr self (with_opened now).

Definition open_until (self : addr) : M S float :=
  o <- getattr self _opened ;;
  t <- getattr self _recovery_timeout ;;
  ret (o + t)%float.

Definition open_remaining (self : addr) : M S float :=
  u <- open_until self ;;
  now <- utcnow ;;
  ret (u - now)%float.

Definition state (self : addr) : M S state_name :=
  st <- getattr self _state ;;
  half <- (if state_eqb st STATE_OPEN
           then r <- open_remaining self ;; ret (r <=? 0)%float
           else ret false) ;;
  if half then ret STATE_HALF_OPEN else getattr self _state.


Definition closed (self : addr) : M S bool :=
  st <- state self ;; ret (state_eqb st STATE_CLOSED).

Definition opened (self : addr) : M S bool :=
  st <- state self ;; ret (state_eqb st STATE_OPEN).

Definition name (self : addr) : M S (option string) := getattr self _name.

Definition __call_succeeded (self : addr) : M S unit :=
  n <- getattr self _name ;;
  st <- getattr self _state ;;
  record_circuit_breaker_success_total n st ;;
  setattr self (with_state STATE_CLOSED) ;;
  setattr self (with_failure_count (c_int 0)).

Definition __call_failed (self : addr) : M S unit :=
  n <- getattr self _name ;;
  st <- getattr self _state ;;
  record_circuit_breaker_failure_total n st ;;
  c <- getattr self _failure_count ;;
  setattr self (with_failure_count (c_int (c + 1))) ;;
  c' <- getattr self _failure_count ;;
  t <- getattr self _failure_threshold ;;
  if Z.leb t c'
  then setattr self (with_state STATE_OPEN) ;;
       now <- utcnow ;;
       setattr self (with_opened now)
  else ret tt.

End Breaker.

(** ** The monitor *)

Module CircuitBreakerMonitor.
Section Monitor.
Context {S : Type}.

Definition register (circuit_breaker : addr) : M S unit :=
  n <- name circuit_breaker ;;
  fun w => (Ok tt,
            with_circuit_breakers
              (<[n := circuit_breaker]> (circuit_breakers w)) w).

Definition get_circuits : M S (list addr) :=
  fun w => (Ok ((map_to_list (circuit_breakers w)).*2), w).

Definition get (name : option string) : M S (option addr) :=
  fun w => (Ok (circuit_breakers w !! name), w).

(** [for circuit in circuits: if test(circuit): yield circuit], run to its
    end: each test is made when the loop reaches the breaker. *)
Fixpoint select (test : addr -> M S bool) (circuits : list addr)
    : M S (list addr) :=
  match circuits with
  | [] => ret []
  | circuit :: rest =>
      t <- test circuit ;;
      more <- select test rest ;;
      ret (if t then circuit :: more else more)
  end.

Definition get_open : M S (list addr) :=
  circuits <- get_circuits ;; select opened circuits.

Definition get_closed : M S (list addr) :=
  circuits <- get_circuits ;; select closed circuits.

Definition all_closed : M S bool :=
  open <- get_open ;; ret (Nat.eqb (length open) 0).

End Monitor.
End CircuitBreakerMonitor.

(** ** Calls *)

Section Call.
Context {S A V : Type}.

(** A wrapped operation: it has a name, takes arguments, acts on the
    environment, and returns a value or raises; what it raises can be the
    [CircuitBreakerError] of a breaker it went through itself. *)
Record pyfunction := mkFunction {
  __name__ : string;
  body : A -> S -> (V + exn) * S
}.

Definition invoke (func : pyfunction) (args : A) : M S V :=
  fun w => let (r, s) := body func args (env w) in
           (match r with
            | inl v => Ok v
            | inr x => Raise x
            end, with_env s w).

Definition call (self : addr) (func : pyfunction) (args : A) : M S V :=
  try_finally
    (o <- opened self ;;
     if o : bool
     then n <- getattr self _name ;;
          st <- getattr self _state ;;
          record_circuit_breaker_failure_total n st ;;
          raise (CircuitBreakerError self)
     else result <- try_except (invoke func args)
                      (getattr self _expected_exception)
                      (fun e => __call_failed self ;; raise e) ;;
          __call_succeeded self ;;
          ret result)
    (n <- getattr self _name ;;
     st <- state self ;;
     record_circuit_breaker_state n st).

Definition decorate (self : addr) (function : pyfunction)
    : M S (A -> M S V) :=
  n <- getattr self _name ;;
  match n with
  | None => setattr self (with_name (Some (__name__ function)))
  | Some _ => ret tt
  end ;;
  CircuitBreakerMonitor.register self ;;
  ret (fun args => call self function args).

(** [__call__]: the breaker used as a decorator. *)
Definition __call__ (self : addr) (wrapped : pyfunction)
    : M S (A -> M S V) :=
  decorate self wrapped.

End Call.

(** ** Rendering a rejection *)









Section Rendering.
Context {S : Type}.
(** How Python prints a float under [%s]; a builtin, not code of this
    repository. *)
Variable str_float : float -> string.



End Rendering.

(** * Properties *)

(** ** Binary64: order, and the sign of a difference

    The code compares [open_until - now] with zero.  A binary64 subtraction
    rounds, but never across zero: the sign of the difference of two numbers
    is the sign of their exact difference.  Numbers are ordered here through
    whole multiples of the smallest positive one, [2^-1074]. *)

(** [m * 2^e] in units of [2^-1074]. *)
Definition mag (m : positive) (e : Z) : Z := Zpos m * 2 ^ (e + 1074).

(** A number in those units; the infinities lie beyond every finite number,
    whose magnitude stays below [2^2098]. *)
Definition ord (a : spec_float) : Z :=
  match a with
  | S754_zero _ => 0
  | S754_nan => 0
  | S754_infinity s => cond_Zopp s (2 ^ 2098)
  | S754_finite s m e => cond_Zopp s (mag m e)
  end.

Definition is_number (a : spec_float) : bool :=
  match a with S754_nan => false | _ => true end.

Lemma digits2_size p : digits2_pos p = Pos.size p.
Proof. induction p; cbn; now rewrite ?IHp. Qed.

Lemma digits2_bounds p :
  2 ^ (Zpos (digits2_pos p) - 1) <= Zpos p < 2 ^ Zpos (digits2_pos p).
Proof.
  rewrite digits2_size. split.
  - pose proof (Pos.size_le p) as H.
    assert (2 ^ Zpos (Pos.size p) <= 2 * Zpos p) as H'.
    { change 2 with (Zpos 2) at 1. rewrite <- Pos2Z.inj_pow.
      change (2 * Zpos p) with (Zpos p~0). now apply Pos2Z.pos_le_pos. }
    replace (Zpos (Pos.size p)) with (Zpos (Pos.size p) - 1 + 1) in H' by lia.
    rewrite Z.pow_add_r in H' by lia. lia.
  - pose proof (Pos.size_gt p) as H.
    change 2 with (Zpos 2). rewrite <- Pos2Z.inj_pow.
    now apply Pos2Z.pos_lt_pos.
Qed.

Lemma bounded_inv m e :
  bounded prec emax m e = true ->
  -1074 <= e <= 971
  /\ Zpos (digits2_pos m) <= 53
  /\ (-1074 < e -> Zpos (digits2_pos m) = 53).
Proof.
  unfold bounded, canonical_mantissa, fexp, SpecFloat.emin, prec, emax.
  intros H. apply andb_true_iff in H. destruct H as [H1 H2].
  apply Z.eqb_eq in H1. apply Z.leb_le in H2. lia.
Qed.

Lemma mag_bounds m e :
  bounded prec emax m e = true -> 0 < mag m e < 2 ^ 2098.
Proof.
  intros H. apply bounded_inv in H. destruct H as (He & Hd & _).
  pose proof (digits2_bounds m) as [_ Hm].
  assert (Zpos m < 2 ^ 53) as Hm'.
  { eapply Z.lt_le_trans; [exact Hm |]. apply Z.pow_le_mono_r; lia. }
  unfold mag. split; [apply Z.mul_pos_pos; [lia | apply Z.pow_pos_nonneg; lia] |].
  assert (2 ^ (e + 1074) <= 2 ^ 2045) by (apply Z.pow_le_mono_r; lia).
  assert (0 < 2 ^ (e + 1074)) by (apply Z.pow_pos_nonneg; lia).
  replace (2 ^ 2098) with (2 ^ 53 * 2 ^ 2045)
    by (rewrite <- Z.pow_add_r by lia; reflexivity).
  nia.
Qed.

Lemma mag_compare m1 e1 m2 e2 :
  bounded prec emax m1 e1 = true ->
  bounded prec emax m2 e2 = true ->
  match e1 ?= e2 with
  | Lt => Lt
  | Gt => Gt
  | Eq => Pos.compare_cont Eq m1 m2
  end = (mag m1 e1 ?= mag m2 e2).
Proof.
  intros H1 H2.
  apply bounded_inv in H1. destruct H1 as (He1 & Hd1 & Hn1).
  apply bounded_inv in H2. destruct H2 as (He2 & Hd2 & Hn2).
  pose proof (digits2_bounds m1) as [Hl1 Hu1].
  pose proof (digits2_bounds m2) as [Hl2 Hu2].
  assert (forall m e e', -1074 <= e < e' -> 
            Zpos (digits2_pos m) <= 53 ->
            forall m', Zpos (digits2_pos m') = 53 ->
            mag m e < mag m' e') as Key.
  { intros m e e' He Hd m' Hd'. unfold mag.
    pose proof (digits2_bounds m) as [_ Hu].
    pose proof (digits2_bounds m') as [Hl _]. rewrite Hd' in Hl.
    assert (Zpos m < 2 ^ 53)
      by (eapply Z.lt_le_trans; [exact Hu | apply Z.pow_le_mono_r; lia]).
    replace (e' + 1074) with ((e + 1074) + (e' - e)) by lia.
    rewrite (Z.pow_add_r 2 (e + 1074) (e' - e)) by lia.
    assert (0 < 2 ^ (e + 1074)) by (apply Z.pow_pos_nonneg; lia).
    assert (2 ^ 1 <= 2 ^ (e' - e)) by (apply Z.pow_le_mono_r; lia).
    change (2 ^ 1) with 2 in *. change (53 - 1) with 52 in Hl.
    assert (2 ^ 53 = 2 * 2 ^ 52) as E53 by reflexivity.
    set (P := 2 ^ (e + 1074)) in *. set (Q := 2 ^ (e' - e)) in *.
    set (K := 2 ^ 52) in *. clearbody P Q K.
    assert (Zpos m * P < 2 * K * P) by (apply Z.mul_lt_mono_pos_r; lia).
    assert (2 * K * P <= Zpos m' * Q * P).
    { apply Z.mul_le_mono_nonneg_r; [lia |].
      rewrite (Z.mul_comm 2 K). apply Z.mul_le_mono_nonneg; lia. }
    lia. }
  destruct (Z.compare_spec e1 e2) as [E | L | G].
  - subst e2. unfold mag. rewrite Pos.compare_cont_spec. cbn [Pos.switch_Eq].
    assert (0 < 2 ^ (e1 + 1074)) by (apply Z.pow_pos_nonneg; lia).
    change (Pos.compare m1 m2) with (Zpos m1 ?= Zpos m2).
    symmetry. destruct (Z.compare_spec (Zpos m1) (Zpos m2)).
    + apply Z.compare_eq_iff. congruence.
    + apply Z.compare_lt_iff. nia.
    + apply Z.compare_gt_iff. nia.
  - symmetry. apply Z.compare_lt_iff. apply Key; first [lia | apply Hn2; lia].
  - symmetry. apply Z.compare_gt_iff. apply Key; first [lia | apply Hn1; lia].
Qed.

(** [SFcompare] is the order of [ord]. *)
Lemma compare_ord a b :
  valid_binary a = true -> valid_binary b = true ->
  is_number a = true -> is_number b = true ->
  SFcompare a b = Some (ord a ?= ord b).
Proof.
  intros Va Vb Na Nb.
  assert (0 < 2 ^ 2098) as HB by (apply Z.pow_pos_nonneg; lia).
  destruct a as [sa | sa | | sa ma ea]; try discriminate;
    destruct b as [sb | sb | | sb mb eb]; try discriminate;
    cbn [SFcompare ord]; cbn [valid_binary] in Va, Vb;
    try pose proof (mag_bounds _ _ Va) as Ma;
    try pose proof (mag_bounds _ _ Vb) as Mb;
    try pose proof (mag_compare _ _ _ _ Va Vb) as Mc;
    try pose proof (mag_compare _ _ _ _ Vb Va) as Mc';
    set (B := 2 ^ 2098) in *; clearbody B.
  all: try (destruct sa; try destruct sb; cbn [cond_Zopp]; f_equal; symmetry;
            first [ apply Z.compare_eq_iff; lia
                  | apply Z.compare_lt_iff; lia
                  | apply Z.compare_gt_iff; lia ]).
  destruct sa, sb; cbn [cond_Zopp]; f_equal.
  - rewrite Z.compare_opp, <- Mc'.
    destruct (Z.compare_spec ea eb) as [E | L | G].
    + subst eb. rewrite Z.compare_refl, !Pos.compare_cont_spec.
      rewrite (Pos.compare_antisym ma mb).
      destruct (Pos.compare ma mb); reflexivity.
    + now rewrite (proj2 (Z.compare_gt_iff eb ea)) by lia.
    + now rewrite (proj2 (Z.compare_lt_iff eb ea)) by lia.
  - symmetry. apply Z.compare_lt_iff. lia.
  - symmetry. apply Z.compare_gt_iff. lia.
  - exact Mc.
Qed.

(** ** Rounding never loses the sign *)

Lemma shr_1_m mrs :
  0 <= shr_m mrs -> shr_m (shr_1 mrs) = Z.div2 (shr_m mrs).
Proof.
  destruct mrs as [m r s]. cbn [shr_m]. intros H.
  destruct m as [| p | p]; [reflexivity | | lia].
  destruct p; reflexivity.
Qed.

Lemma iter_shr_m p :
  forall mrs, 0 <= shr_m mrs ->
  shr_m (SpecFloat.iter_pos shr_1 p mrs) = Z.shiftr (shr_m mrs) (Zpos p).
Proof.
  induction p as [p IH | p IH |]; intros mrs H; cbn [SpecFloat.iter_pos].
  - assert (0 <= shr_m (shr_1 mrs)) as H1
      by (rewrite shr_1_m by assumption; now apply Z.div2_nonneg).
    assert (0 <= shr_m (SpecFloat.iter_pos shr_1 p (shr_1 mrs))) as H2
      by (rewrite IH by assumption; now apply Z.shiftr_nonneg).
    rewrite IH, IH, shr_1_m, Z.div2_spec by assumption.
    rewrite !Z.shiftr_shiftr by lia. f_equal. lia.
  - assert (0 <= shr_m (SpecFloat.iter_pos shr_1 p mrs)) as H2
      by (rewrite IH by assumption; now apply Z.shiftr_nonneg).
    rewrite IH, IH by assumption.
    rewrite Z.shiftr_shiftr by lia. f_equal. lia.
  - rewrite shr_1_m by assumption. apply Z.div2_spec.
Qed.

Lemma shr_record_of_loc_m m l : shr_m (shr_record_of_loc m l) = m.
Proof. destruct l as [| []]; reflexivity. Qed.

Lemma shr_fexp_pos m e l :
  1 <= m -> -1074 <= e ->
  1 <= shr_m (fst (shr_fexp prec emax m e l))
  /\ -1074 <= snd (shr_fexp prec emax m e l).
Proof.
  intros Hm He. unfold shr_fexp, shr, fexp, SpecFloat.emin, prec, emax.
  destruct m as [| p | p]; try lia. cbn [Zdigits2].
  pose proof (digits2_bounds p) as [Hl _].
  set (d := Zpos (digits2_pos p)) in *.
  destruct (Z.max (d + e - 53) (3 - 1024 - 53) - e) as [| q | q] eqn:N;
    cbn [fst snd]; rewrite ?shr_record_of_loc_m; try lia.
  split; [| lia].
  rewrite iter_shr_m by (rewrite shr_record_of_loc_m; lia).
  rewrite shr_record_of_loc_m, Z.shiftr_div_pow2 by lia.
  assert (Zpos q = d - 53) as Hq by lia.
  apply Z.div_le_lower_bound; [apply Z.pow_pos_nonneg; lia |].
  rewrite Z.mul_1_r. eapply Z.le_trans; [| exact Hl].
  apply Z.pow_le_mono_r; lia.
Qed.

(** [r] is nonzero, with sign [s]. *)
Definition signed (s : bool) (r : spec_float) : Prop :=
  match r with
  | S754_finite s' _ _ | S754_infinity s' => s' = s
  | _ => False
  end.

Lemma binary_round_aux_signed s m e l :
  1 <= m -> -1074 <= e -> signed s (binary_round_aux prec emax s m e l).
Proof.
  intros Hm He. unfold binary_round_aux.
  pose proof (shr_fexp_pos m e l Hm He) as [H1 H2].
  destruct (shr_fexp prec emax m e l) as [mrs' e']. cbn [fst snd] in H1, H2.
  set (m2 := round_nearest_even (shr_m mrs') (loc_of_shr_record mrs')).
  assert (1 <= m2) as Hm2.
  { unfold m2, round_nearest_even.
    destruct (loc_of_shr_record mrs') as [| []]; try lia.
    destruct (Z.even (shr_m mrs')); lia. }
  pose proof (shr_fexp_pos m2 e' loc_Exact Hm2 H2) as [H3 _].
  destruct (shr_fexp prec emax m2 e' loc_Exact) as [mrs'' e''].
  cbn [fst] in H3.
  destruct (shr_m mrs'') as [| p | p]; try lia.
  now destruct (e'' <=? emax - prec).
Qed.

Lemma binary_round_signed s p e :
  -1074 <= e -> signed s (binary_round prec emax s p e).
Proof.
  intros He. unfold binary_round, shl_align.
  set (t := fexp prec emax (Zpos (digits2_pos p) + e)).
  assert (-1074 <= t) as Ht
    by (unfold t, fexp, SpecFloat.emin, prec, emax; lia).
  destruct (t - e); apply binary_round_aux_signed; lia.
Qed.

Lemma binary_normalize_compare D e :
  -1074 <= e ->
  SFcompare (binary_normalize prec emax D e false) (S754_zero false)
  = Some (D ?= 0).
Proof.
  intros He. destruct D as [| p | p]; cbn [binary_normalize].
  - reflexivity.
  - pose proof (binary_round_signed false p e He) as H.
    destruct (binary_round prec emax false p e); cbn in H; try easy;
      subst; reflexivity.
  - pose proof (binary_round_signed true p e He) as H.
    destruct (binary_round prec emax true p e); cbn in H; try easy;
      subst; reflexivity.
Qed.

Lemma iter_xO m d : Zpos (Pos.iter xO m d) = Zpos m * 2 ^ Zpos d.
Proof.
  induction d as [| d IH] using Pos.peano_ind.
  - cbn. lia.
  - rewrite Pos.iter_succ, Pos2Z.inj_xO, IH, Pos2Z.inj_succ, Z.pow_succ_r by lia.
    lia.
Qed.

Lemma shl_align_mag m e e' :
  -1074 <= e' <= e ->
  Zpos (fst (shl_align m e e')) * 2 ^ (e' + 1074) = mag m e.
Proof.
  intros H. unfold shl_align, mag.
  destruct (e' - e) as [| d | d] eqn:E; cbn [fst]; try lia.
  - now replace e' with e by lia.
  - rewrite iter_xO, <- Z.mul_assoc, <- Z.pow_add_r by lia.
    do 2 f_equal. lia.
Qed.

(** Neither an infinity nor a NaN. *)
Definition is_real (a : spec_float) : bool :=
  match a with
  | S754_zero _ | S754_finite _ _ _ => true
  | _ => false
  end.

(** Subtracting a finite number: the difference compares with zero as the
    two numbers compare with each other. *)
Lemma SFsub_compare a b :
  valid_binary a = true -> valid_binary b = true -> is_real b = true ->
  SFcompare (SF64sub a b) (S754_zero false) = SFcompare a b.
Proof.
  intros Va Vb Rb.
  destruct a as [sa | sa | | sa ma ea];
    destruct b as [sb | sb | | sb mb eb]; try discriminate.
  - destruct sa, sb; reflexivity.
  - destruct sa, sb; reflexivity.
  - destruct sa; reflexivity.
  - destruct sa; reflexivity.
  - reflexivity.
  - reflexivity.
  - destruct sa; reflexivity.
  - unfold SF64sub, SFsub. cbv zeta.
    cbn [valid_binary] in Va, Vb.
    pose proof (bounded_inv _ _ Va) as (Ha & _).
    pose proof (bounded_inv _ _ Vb) as (Hb & _).
    rewrite binary_normalize_compare by lia.
    rewrite compare_ord by easy. f_equal. cbn [ord].
    set (ez := Z.min ea eb).
    pose proof (shl_align_mag ma ea ez ltac:(lia)) as Ea.
    pose proof (shl_align_mag mb eb ez ltac:(lia)) as Eb.
    assert (0 < 2 ^ (ez + 1074)) as HP by (apply Z.pow_pos_nonneg; lia).
    set (P := 2 ^ (ez + 1074)) in *.
    set (xa := Zpos (fst (shl_align ma ea ez))) in *.
    set (xb := Zpos (fst (shl_align mb eb ez))) in *.
    rewrite <- Ea, <- Eb. clearbody P xa xb.
    assert (cond_Zopp sa (xa * P) - cond_Zopp sb (xb * P)
            = (cond_Zopp sa xa - cond_Zopp sb xb) * P) as E
      by (destruct sa, sb; cbn [cond_Zopp]; lia).
    set (D := cond_Zopp sa xa - cond_Zopp sb xb) in *. clearbody D.
    destruct (Z.compare_spec D 0) as [C | C | C]; symmetry.
    + apply Z.compare_eq_iff. nia.
    + apply Z.compare_lt_iff. nia.
    + apply Z.compare_gt_iff. nia.
Qed.

(** ** On the floats of the breaker *)

Section OnFloats.
Local Open Scope float_scope.


Lemma Prim2SF_number x : is_nan x = false -> is_number (Prim2SF x) = true.
Proof.
  intros H. unfold Prim2SF. rewrite H.
  destruct (is_zero x); [reflexivity |].
  destruct (is_infinity x); [reflexivity |].
  destruct (Z.frexp x) as [r e].
  destruct (shr_fexp _ _ _ _ _) as [mrs e'].
  now destruct (shr_m mrs).
Qed.

Lemma Prim2SF_real x : is_finite x = true -> is_real (Prim2SF x) = true.
Proof.
  unfold is_finite. intros H. apply negb_true_iff, orb_false_iff in H.
  destruct H as [H1 H2]. unfold Prim2SF. rewrite H1, H2.
  destruct (is_zero x); [reflexivity |].
  destruct (Z.frexp x) as [r e].
  destruct (shr_fexp _ _ _ _ _) as [mrs e'].
  now destruct (shr_m mrs).
Qed.

Lemma compare_Some_numbers a b c :
  SFcompare a b = Some c -> is_number a = true /\ is_number b = true.
Proof. destruct a, b; cbn; intros H; try discriminate; now split. Qed.

(** The value a float stands for, on a scale that makes it a whole number. *)
Definition value (x : float) : Z := ord (Prim2SF x).

Lemma leb_iff x y :
  (x <=? y) = true
  <-> is_nan x = false /\ is_nan y = false /\ (value x <= value y)%Z.
Proof.
  rewrite FloatAxioms.leb_spec. unfold SFleb, value. split.
  - intros H.
    destruct (SFcompare (Prim2SF x) (Prim2SF y)) as [c |] eqn:E;
      [| discriminate].
    destruct (compare_Some_numbers _ _ _ E) as [Nx Ny].
    rewrite compare_ord in E by (assumption || apply FloatAxioms.Prim2SF_valid).
    injection E as E.
    assert (is_nan x = false) as Hx.
    { destruct (is_nan x) eqn:I; [| reflexivity].
      unfold Prim2SF in Nx. now rewrite I in Nx. }
    assert (is_nan y = false) as Hy.
    { destruct (is_nan y) eqn:I; [| reflexivity].
      unfold Prim2SF in Ny. now rewrite I in Ny. }
    do 2 (split; [assumption |]).
    destruct c; try discriminate.
    + apply Z.compare_eq_iff in E. lia.
    + pose proof (proj1 (Z.compare_lt_iff _ _) E). lia.
  - intros (Hx & Hy & L).
    rewrite compare_ord
      by (apply FloatAxioms.Prim2SF_valid || now apply Prim2SF_number).
    destruct (Z.compare_spec (ord (Prim2SF x)) (ord (Prim2SF y)));
      [reflexivity | reflexivity | lia].
Qed.

Lemma ltb_iff x y :
  (x <? y) = true
  <-> is_nan x = false /\ is_nan y = false /\ (value x < value y)%Z.
Proof.
  rewrite FloatAxioms.ltb_spec. unfold SFltb, value. split.
  - intros H.
    destruct (SFcompare (Prim2SF x) (Prim2SF y)) as [c |] eqn:E;
      [| discriminate].
    destruct (compare_Some_numbers _ _ _ E) as [Nx Ny].
    rewrite compare_ord in E by (assumption || apply FloatAxioms.Prim2SF_valid).
    injection E as E.
    assert (is_nan x = false) as Hx.
    { destruct (is_nan x) eqn:I; [| reflexivity].
      unfold Prim2SF in Nx. now rewrite I in Nx. }
    assert (is_nan y = false) as Hy.
    { destruct (is_nan y) eqn:I; [| reflexivity].
      unfold Prim2SF in Ny. now rewrite I in Ny. }
    do 2 (split; [assumption |]).
    destruct c; try discriminate.
    exact (proj1 (Z.compare_lt_iff _ _) E).
  - intros (Hx & Hy & L).
    rewrite compare_ord
      by (apply FloatAxioms.Prim2SF_valid || now apply Prim2SF_number).
    now rewrite (proj2 (Z.compare_lt_iff _ _) L).
Qed.

Lemma finite_not_nan x : is_finite x = true -> is_nan x = false.
Proof.
  unfold is_finite. intros H. apply negb_true_iff, orb_false_iff in H.
  apply H.
Qed.

(** The sign of a difference is the sign of the exact difference. *)
Lemma sub_compare u t :
  is_finite t = true ->
  SFcompare (Prim2SF (u - t)) (S754_zero false)
  = SFcompare (Prim2SF u) (Prim2SF t).
Proof.
  intros H. rewrite FloatAxioms.sub_spec.
  apply SFsub_compare; try apply FloatAxioms.Prim2SF_valid. now apply Prim2SF_real.
Qed.

Lemma leb_sub u t : is_finite t = true -> (u - t <=? 0) = (u <=? t).
Proof.
  intros H. rewrite !FloatAxioms.leb_spec. unfold SFleb.
  change (Prim2SF 0) with (S754_zero false). now rewrite sub_compare.
Qed.


End OnFloats.

Section Order.
Local Open Scope float_scope.

Lemma ltb_leb_false x y : (x <? y) = true -> (y <=? x) = false.
Proof.
  intros H. apply ltb_iff in H. destruct H as (_ & _ & H).
  destruct (y <=? x) eqn:E; [| reflexivity].
  apply leb_iff in E. lia.
Qed.

Lemma leb_false_ltb x y :
  is_nan x = false -> is_nan y = false ->
  (y <=? x) = false -> (x <? y) = true.
Proof.
  intros Hx Hy H. apply ltb_iff. do 2 (split; [assumption |]).
  destruct (Z.lt_ge_cases (value x) (value y)) as [L | L]; [exact L |].
  assert ((y <=? x) = true) as E by (apply leb_iff; auto).
  congruence.
Qed.

Lemma leb_trans x y z :
  (x <=? y) = true -> (y <=? z) = true -> (x <=? z) = true.
Proof.
  rewrite !leb_iff. intros (Hx & _ & H1) (_ & Hz & H2).
  do 2 (split; [assumption |]). lia.
Qed.

Lemma leb_ltb_false x y z :
  (x <=? y) = true -> (z <=? y) = false -> (z <=? x) = false.
Proof.
  intros H1 H2. destruct (z <=? x) eqn:E; [| reflexivity].
  rewrite (leb_trans z x y E H1) in H2. discriminate.
Qed.

Lemma leb_number_l x y : (x <=? y) = true -> is_nan x = false.
Proof. intros H. now apply leb_iff in H. Qed.

End Order.
(** ** Reading the world after an update *)

Section Worlds.
Context {S : Type}.
Implicit Types (w : World S) (a : addr) (b : CircuitBreaker).

Lemma heap_store_eq a b w : heap (store a b w) a = b.
Proof. unfold store; cbn. now rewrite Nat.eqb_refl. Qed.

Lemma heap_store_ne a a' b w : a' <> a -> heap (store a b w) a' = heap w a'.
Proof.
  intros H. unfold store; cbn.
  destruct (Nat.eqb_spec a' a); [contradiction | reflexivity].
Qed.

Lemma clock_store a b w : clock (store a b w) = clock w.
Proof. reflexivity. Qed.
Lemma ticks_store a b w : ticks (store a b w) = ticks w.
Proof. reflexivity. Qed.
Lemma env_store a b w : env (store a b w) = env w.
Proof. reflexivity. Qed.
Lemma now_store a b w : now (store a b w) = now w.
Proof. reflexivity. Qed.
Lemma stats_store a b w : stats (store a b w) = stats w.
Proof. reflexivity. Qed.
Lemma circuit_breakers_store a b w :
  circuit_breakers (store a b w) = circuit_breakers w.
Proof. reflexivity. Qed.

Lemma now_finite w : is_finite (now w) = true.
Proof. apply seconds_finite. Qed.

End Worlds.

Create Rewrite HintDb world.
#[local] Hint Rewrite @heap_store_eq @clock_store @ticks_store @env_store
  @now_store @stats_store @circuit_breakers_store : world.

(** Unfold the updates other than [store], whose lookups go through the
    lemmas above. *)
Ltac wsimpl :=
  cbn [heap env clock ticks stats circuit_breakers tick log with_env
       with_circuit_breakers fst snd];
  autorewrite with world.

(** ** The transitions on one breaker record *)

(** The derived state of a breaker record read at instant [t]. *)
Definition derived (b : CircuitBreaker) (t : float) : state_name :=
  if state_eqb (_state b) STATE_OPEN
     && (_opened b + _recovery_timeout b - t <=? 0)%float
  then STATE_HALF_OPEN else _state b.

Definition succeeded (b : CircuitBreaker) : CircuitBreaker :=
  with_failure_count (c_int 0) (with_state STATE_CLOSED b).

Definition counted (b : CircuitBreaker) : CircuitBreaker :=
  with_failure_count (c_int (_failure_count b + 1)) b.

Definition failed (b : CircuitBreaker) (t : float) : CircuitBreaker :=
  if _failure_threshold b <=? c_int (_failure_count b + 1)
  then with_opened t (with_state STATE_OPEN (counted b))
  else counted b.

(** A read of [state] consumes a clock reading only when the stored state
    is OPEN. *)
Definition after_state {S : Type} (self : addr) (w : World S) : World S :=
  if state_eqb (_state (heap w self)) STATE_OPEN then tick w else w.

Section Runs.
Context {S : Type}.
Implicit Types (w : World S) (self : addr).

Lemma state_run self w :
  state self w = (Ok (derived (heap w self) (now w)), after_state self w).
Proof.
  unfold state, derived, after_state, open_remaining, open_until, utcnow,
    getattr, bind, ret.
  destruct (state_eqb (_state (heap w self)) STATE_OPEN); cbn.
  - destruct (_ <=? _)%float; reflexivity.
  - reflexivity.
Qed.

Lemma opened_run self w :
  opened self w =
  (Ok (state_eqb (derived (heap w self) (now w)) STATE_OPEN),
   after_state self w).
Proof. unfold opened, bind. now rewrite state_run. Qed.

Lemma closed_run self w :
  closed self w =
  (Ok (state_eqb (derived (heap w self) (now w)) STATE_CLOSED),
   after_state self w).
Proof. unfold closed, bind. now rewrite state_run. Qed.

Lemma heap_after_state self w : heap (after_state self w) = heap w.
Proof. unfold after_state. now destruct (state_eqb _ _). Qed.
Lemma env_after_state self w : env (after_state self w) = env w.
Proof. unfold after_state. now destruct (state_eqb _ _). Qed.
Lemma clock_after_state self w : clock (after_state self w) = clock w.
Proof. unfold after_state. now destruct (state_eqb _ _). Qed.

Lemma call_succeeded_run self w :
  __call_succeeded self w =
  (Ok tt,
   store self (succeeded (heap w self))
     (store self (with_state STATE_CLOSED (heap w self))
        (log (SuccessTotalEvent (_name (heap w self)) (_state (heap w self)))
           w))).
Proof.
  unfold __call_succeeded, record_circuit_breaker_success_total, emit,
    setattr, getattr, bind. wsimpl. reflexivity.
Qed.

Lemma call_failed_run self w :
  let b := heap w self in
  let w1 := store self (counted b)
              (log (FailureTotalEvent (_name b) (_state b)) w) in
  __call_failed self w =
  (Ok tt,
   if _failure_threshold b <=? c_int (_failure_count b + 1)
   then store self (failed b (now w))
          (tick (store self (with_state STATE_OPEN (counted b)) w1))
   else w1).
Proof.
  unfold __call_failed, record_circuit_breaker_failure_total, emit,
    setattr, getattr, utcnow, bind, ret, failed. wsimpl.
  cbn [counted with_failure_count _failure_threshold _failure_count].
  destruct (_ <=? _); wsimpl; reflexivity.
Qed.

End Runs.

(** ** One call *)

(** The [finally] clause of [call]: the derived state goes to the sink. *)
Definition reported {S : Type} (self : addr) (w : World S) : World S :=
  log (StateEvent (_name (heap w self)) (derived (heap w self) (now w)))
    (after_state self w).

Section CallRuns.
Context {S A V : Type}.
Implicit Types (w : World S) (self : addr) (func : @pyfunction S A V).

Lemma heap_reported self w : heap (reported self w) = heap w.
Proof. unfold reported. wsimpl. apply heap_after_state. Qed.
Lemma env_reported self w : env (reported self w) = env w.
Proof. unfold reported. wsimpl. apply env_after_state. Qed.
Lemma clock_reported self w : clock (reported self w) = clock w.
Proof. unfold reported. wsimpl. apply clock_after_state. Qed.

(** What [call] does, by cases on the derived state at its first line and
    on what the operation does. *)
Lemma call_run self func args w :
  call self func args w =
  let b := heap w self in
  let w0 := after_state self w in
  if state_eqb (derived b (now w)) STATE_OPEN
  then (Raise (CircuitBreakerError self),
        reported self (log (FailureTotalEvent (_name b) (_state b)) w0))
  else
    let w1 := with_env (snd (body func args (env w))) w0 in
    match fst (body func args (env w)) with
    | inl v => (Ok v, reported self (snd (__call_succeeded self w1)))
    | inr x =>
        (Raise x,
         reported self
           (if isinstance x (_expected_exception b)
            then snd (__call_failed self w1) else w1))
    end.
Proof.
  cbv zeta. unfold call.
  set (fin := (n <- getattr self _name ;; st <- state self ;;
               record_circuit_breaker_state n st)).
  assert (Hfin : forall w', fin w' = (Ok tt, reported self w')).
  { intros w'. unfold fin, bind, getattr. rewrite state_run. reflexivity. }
  clearbody fin. unfold try_finally. unfold bind at 1. rewrite opened_run.
  destruct (state_eqb (derived (heap w self) (now w)) STATE_OPEN).
  - unfold bind, getattr, record_circuit_breaker_failure_total, emit, raise.
    rewrite Hfin. now rewrite !heap_after_state.
  - unfold bind at 1. unfold try_except, invoke, getattr.
    rewrite env_after_state.
    destruct (body func args (env w)) as [[v | e] s]; cbn [fst snd].
    + unfold bind, ret. rewrite call_succeeded_run. cbn [fst snd].
      now rewrite Hfin.
    + wsimpl. rewrite heap_after_state.
      destruct (isinstance e _).
      * unfold bind, raise. rewrite call_failed_run. cbn [fst snd].
        now rewrite Hfin.
      * now rewrite Hfin.
Qed.

End CallRuns.

(** ** The derived state *)

Lemma state_eqb_eq a b : state_eqb a b = true <-> a = b.
Proof. destruct a, b; cbn; split; congruence. Qed.

(** Read at a clock instant, the test [open_remaining <= 0] is the test
    [open_until <= now]. *)
Lemma derived_eq b t :
  is_finite t = true ->
  derived b t =
  if state_eqb (_state b) STATE_OPEN
     && (_opened b + _recovery_timeout b <=? t)%float
  then STATE_HALF_OPEN else _state b.
Proof. intros H. unfold derived. now rewrite leb_sub. Qed.

Lemma derived_open_iff b t :
  is_finite t = true ->
  derived b t = STATE_OPEN <->
  _state b = STATE_OPEN
  /\ (_opened b + _recovery_timeout b <=? t)%float = false.
Proof.
  intros H. rewrite derived_eq by assumption.
  destruct (_ <=? _)%float;
    destruct (_state b); cbn; split; try discriminate; try tauto;
    intros [? ?]; discriminate.
Qed.

Lemma derived_half_open_iff b t :
  is_finite t = true ->
  derived b t = STATE_HALF_OPEN <->
  (_state b = STATE_OPEN \/ _state b = STATE_HALF_OPEN)
  /\ (_state b = STATE_OPEN ->
      (_opened b + _recovery_timeout b <=? t)%float = true).
Proof.
  intros H. rewrite derived_eq by assumption.
  destruct (_ <=? _)%float;
    destruct (_state b); cbn; split; try discriminate; try tauto;
    try (intros [[? | ?] ?]; discriminate);
    try (intros [_ K]; specialize (K eq_refl); discriminate);
    intros _; split; auto; discriminate.
Qed.

Lemma derived_closed_iff b t :
  derived b t = STATE_CLOSED <-> _state b = STATE_CLOSED.
Proof.
  unfold derived. destruct (_state b); cbn; try tauto;
    destruct (_ <=? _)%float; split; discriminate.
Qed.

(** ** What one call leaves behind *)

Section CallEffects.
Context {S A V : Type}.
Implicit Types (w : World S) (self : addr) (func : @pyfunction S A V).

Lemma call_failed_heap self w :
  heap (snd (__call_failed self w)) self = failed (heap w self) (now w).
Proof.
  rewrite call_failed_run. cbn [snd]. unfold failed.
  destruct (_ <=? _); now wsimpl.
Qed.

Lemma call_failed_frame self w a :
  a <> self -> heap (snd (__call_failed self w)) a = heap w a.
Proof.
  intros N. rewrite call_failed_run. cbn [snd].
  destruct (_ <=? _);
    repeat first [rewrite heap_store_ne by assumption | progress wsimpl];
    reflexivity.
Qed.

Lemma call_failed_env self w : env (snd (__call_failed self w)) = env w.
Proof. rewrite call_failed_run. cbn [snd]. now destruct (_ <=? _). Qed.

(** The instant [__call_failed] stamps when [call] runs it: the clock read
    that follows the one of the first line, if that line made one. *)
Definition failure_instant self w : float := now (after_state self w).

Lemma call_result self func args w :
  fst (call self func args w) =
  if state_eqb (derived (heap w self) (now w)) STATE_OPEN
  then Raise (CircuitBreakerError self)
  else match fst (body func args (env w)) with
       | inl v => Ok v
       | inr x => Raise x
       end.
Proof.
  rewrite call_run. cbv zeta.
  destruct (state_eqb _ _); [reflexivity |].
  now destruct (fst (body func args (env w))).
Qed.

Lemma call_env self func args w :
  env (snd (call self func args w)) =
  if state_eqb (derived (heap w self) (now w)) STATE_OPEN
  then env w
  else snd (body func args (env w)).
Proof.
  rewrite call_run. cbv zeta.
  destruct (state_eqb _ _); cbn [snd].
  - rewrite env_reported. wsimpl. apply env_after_state.
  - destruct (fst (body func args (env w))); cbn [snd];
      rewrite env_reported.
    + now rewrite call_succeeded_run.
    + destruct (isinstance _ _); [now rewrite call_failed_env | reflexivity].
Qed.

Lemma call_heap self func args w :
  heap (snd (call self func args w)) self =
  let b := heap w self in
  if state_eqb (derived b (now w)) STATE_OPEN then b
  else match fst (body func args (env w)) with
       | inl _ => succeeded b
       | inr x =>
           if isinstance x (_expected_exception b)
           then failed b (failure_instant self w) else b
       end.
Proof.
  rewrite call_run. cbv zeta.
  destruct (state_eqb _ _); cbn [snd].
  - rewrite heap_reported. wsimpl. now rewrite heap_after_state.
  - destruct (fst (body func args (env w))); cbn [snd];
      rewrite heap_reported.
    + rewrite call_succeeded_run. cbn [snd]. wsimpl.
      now rewrite heap_after_state.
    + destruct (isinstance _ _).
      * rewrite call_failed_heap. wsimpl. now rewrite heap_after_state.
      * wsimpl. now rewrite heap_after_state.
Qed.

Lemma call_frame self func args w a :
  a <> self -> heap (snd (call self func args w)) a = heap w a.
Proof.
  intros N. rewrite call_run. cbv zeta.
  destruct (state_eqb _ _); cbn [snd].
  - rewrite heap_reported. wsimpl. now rewrite heap_after_state.
  - destruct (fst (body func args (env w))); cbn [snd];
      rewrite heap_reported.
    + rewrite call_succeeded_run. cbn [snd].
      rewrite !heap_store_ne by assumption. wsimpl.
      now rewrite heap_after_state.
    + destruct (isinstance _ _).
      * rewrite call_failed_frame by assumption. wsimpl.
        now rewrite heap_after_state.
      * wsimpl. now rewrite heap_after_state.
Qed.

Lemma circuit_breakers_after_state self w :
  circuit_breakers (after_state self w) = circuit_breakers w.
Proof. unfold after_state. now destruct (state_eqb _ _). Qed.

Lemma call_registry_and_clock self func args w :
  circuit_breakers (snd (call self func args w)) = circuit_breakers w
  /\ clock (snd (call self func args w)) = clock w.
Proof.
  rewrite call_run. cbv zeta. unfold reported.
  destruct (state_eqb (derived (heap w self) (now w)) STATE_OPEN);
    [| destruct (fst (body func args (env w)));
       [rewrite call_succeeded_run
       | destruct (isinstance _ _);
         [rewrite call_failed_run; cbv zeta;
          destruct (_failure_threshold _ <=? _) |]]];
    cbn [snd];
    repeat first [rewrite circuit_breakers_after_state
                 | rewrite clock_after_state
                 | progress wsimpl];
    split; reflexivity.
Qed.

End CallEffects.

(** ** Rejection *)

Section Rejection.
Context {S A V : Type}.

(** The operation with a call counter beside its environment. *)
Definition counting (func : @pyfunction S A V) : @pyfunction (S * nat) A V :=
  mkFunction (__name__ func)
    (fun args sn => (fst (body func args (fst sn)),
                     (snd (body func args (fst sn)), Datatypes.S (snd sn)))).

(** C1 (as amended): [call] refuses a call, that is raises its own
    CircuitBreakerError without invoking the wrapped operation (whose call
    counter and environment stay as they were), exactly when the derived
    state read at its first line is OPEN: when OPEN is stored and
    [open_until], the binary64 sum [_opened + _recovery_timeout], is not at
    or below the clock reading, which unless that sum is a NaN says that the
    clock reads less.  In the two other derived states the operation is
    invoked once, and what it returns or raises is what the call returns or
    raises; so a call raises a CircuitBreakerError when it is refused and
    when the operation raises one, and only then. *)
Theorem call_rejects_iff_open (self : addr) (func : @pyfunction S A V)
    (args : A) (w : World (S * nat)) :
  let r := call self (counting func) args w in
  let b := heap w self in
  let until := (_opened b + _recovery_timeout b)%float in
  (fst (state self w) = Ok STATE_OPEN <-> snd (env (snd r)) = snd (env w))
  /\ (fst (state self w) = Ok STATE_OPEN
      <-> _state b = STATE_OPEN /\ (until <=? now w)%float = false)
  /\ (is_nan until = false ->
      ((until <=? now w)%float = false <-> (now w <? until)%float = true))
  /\ (fst (state self w) = Ok STATE_OPEN
      -> fst r = Raise (CircuitBreakerError self) /\ env (snd r) = env w)
  /\ (fst (state self w) = Ok STATE_CLOSED
      \/ fst (state self w) = Ok STATE_HALF_OPEN
      -> snd (env (snd r)) = Datatypes.S (snd (env w))
         /\ fst (env (snd r)) = snd (body func args (fst (env w)))
         /\ fst r = match fst (body func args (fst (env w))) with
                    | inl v => Ok v
                    | inr x => Raise x
                    end)
  /\ ((exists a, fst r = Raise (CircuitBreakerError a))
      <-> fst (state self w) = Ok STATE_OPEN
          \/ exists a, fst (body func args (fst (env w)))
                       = inr (CircuitBreakerError a)).
Proof.
  cbv zeta. rewrite state_run, call_result, call_env. cbn [fst].
  pose proof (derived_open_iff (heap w self) (now w) (now_finite w)) as Ho.
  assert ((_opened (heap w self) + _recovery_timeout (heap w self)
           <=? now w)%float = false
          <-> (now w <? _opened (heap w self)
                        + _recovery_timeout (heap w self))%float = true
          \/ is_nan (_opened (heap w self)
                     + _recovery_timeout (heap w self))%float = true) as Hn.
  { split.
    - intros H.
      destruct (is_nan (_opened (heap w self)
                        + _recovery_timeout (heap w self))%float) eqn:N;
        [now right | left].
      apply leb_false_ltb; try assumption.
      apply finite_not_nan, now_finite.
    - intros [H | H]; [now apply ltb_leb_false |].
      destruct (_ <=? _)%float eqn:E; [| reflexivity].
      apply leb_number_l in E. congruence. }
  split; [| split; [| split; [| split; [| split]]]].
  - destruct (derived (heap w self) (now w)); cbn [state_eqb body counting
      snd fst]; split; try discriminate; try reflexivity; intros H;
      exfalso; revert H; apply Nat.neq_succ_diag_l.
  - rewrite <- Ho. split; congruence.
  - intros N. rewrite Hn, N. split; [intros [H | H]; congruence | now left].
  - intros H. injection H as ->. split; reflexivity.
  - intros D.
    assert (state_eqb (derived (heap w self) (now w)) STATE_OPEN = false)
      as -> by (destruct D as [D | D]; injection D as ->; reflexivity).
    cbn [body counting fst snd]. repeat split; reflexivity.
  - destruct (derived (heap w self) (now w)); cbn [state_eqb body counting
      fst snd].
    + split.
      * intros [a H]. right. exists a.
        destruct (fst (body func args (fst (env w)))) as [v | x];
          [discriminate | congruence].
      * intros [H | [a H]]; [discriminate |]. exists a. now rewrite H.
    + split; [now left | intros _; now exists self].
    + split.
      * intros [a H]. right. exists a.
        destruct (fst (body func args (fst (env w)))) as [v | x];
          [discriminate | congruence].
      * intros [H | [a H]]; [discriminate |]. exists a. now rewrite H.
Qed.

End Rejection.

(** ** Success and unguarded failures *)

Section Outcomes.
Context {S A V : Type}.
Implicit Types (w : World S) (self : addr) (func : @pyfunction S A V).

(** C6: from a derived state CLOSED or HALF_OPEN, a call whose operation
    returns normally returns that result, leaves the failure count at 0, and
    the derived state read afterwards (right after the call, or at any later
    read of the same fields) is CLOSED. *)
Theorem call_success_closes self func args w v :
  fst (state self w) = Ok STATE_CLOSED
  \/ fst (state self w) = Ok STATE_HALF_OPEN ->
  fst (body func args (env w)) = inl v ->
  let r := call self func args w in
  fst r = Ok v
  /\ _failure_count (heap (snd r) self) = 0
  /\ fst (state self (snd r)) = Ok STATE_CLOSED
  /\ forall w' : World S,
       heap w' self = heap (snd r) self ->
       fst (state self w') = Ok STATE_CLOSED.
Proof.
  cbv zeta. rewrite state_run. cbn [fst]. intros D B.
  assert (state_eqb (derived (heap w self) (now w)) STATE_OPEN = false) as E.
  { destruct D as [D | D]; injection D as ->; reflexivity. }
  rewrite call_result, call_heap. cbv zeta. rewrite E, B.
  split; [reflexivity |]. split; [reflexivity |].
  assert (forall w' : World S, heap w' self = succeeded (heap w self) ->
            fst (state self w') = Ok STATE_CLOSED) as K.
  { intros w' H. rewrite state_run. cbn [fst]. f_equal.
    apply derived_closed_iff. now rewrite H. }
  split; [| exact K].
  apply K. rewrite call_heap. cbv zeta. now rewrite E, B.
Qed.

(** C7: a call whose operation raises an exception outside the guarded
    class leaves the failure count, the stored state and the opening instant
    as they were, whatever the state, and so every other field of every
    breaker; when the operation is reached (derived state not OPEN) that
    exception is what the call raises. *)
Theorem call_unguarded_untouched self func args w x :
  fst (body func args (env w)) = inr x ->
  isinstance x (_expected_exception (heap w self)) = false ->
  let r := call self func args w in
  _failure_count (heap (snd r) self) = _failure_count (heap w self)
  /\ _state (heap (snd r) self) = _state (heap w self)
  /\ _opened (heap (snd r) self) = _opened (heap w self)
  /\ (forall a, heap (snd r) a = heap w a)
  /\ (fst (state self w) <> Ok STATE_OPEN -> fst r = Raise x).
Proof.
  cbv zeta. intros B G.
  assert (heap (snd (call self func args w)) self = heap w self) as E.
  { rewrite call_heap. cbv zeta. rewrite B, G. now destruct (state_eqb _ _). }
  rewrite E. do 3 (split; [reflexivity |]). split.
  - intros a. destruct (Nat.eq_dec a self) as [-> | N];
      [exact E | now apply call_frame].
  - rewrite call_result, state_run, B. cbn [fst].
    destruct (derived (heap w self) (now w)); cbn [state_eqb]; congruence.
Qed.

End Outcomes.

(** ** Construction and decoration *)

Section Construction.
Context {S : Type}.
Implicit Types (w : World S) (self : addr).

Lemma init_heap self ft rt ee nm w :
  heap (snd (__init__ self ft rt ee nm w)) self =
  mkCircuitBreaker (c_int 0) (or_int ft FAILURE_THRESHOLD)
    (or_seconds rt RECOVERY_TIMEOUT) (or_class ee EXPECTED_EXCEPTION) nm
    STATE_CLOSED (now w).
Proof.
  unfold __init__, setattr, utcnow, bind. wsimpl. reflexivity.
Qed.

(** C10: a [failure_threshold] or a [recovery_timeout] of zero given to the
    constructor is dropped by [x or default]: the breaker gets the class
    default, 5 failures or 30 seconds. *)
Theorem init_zero_takes_default self ft rt ee nm w :
  _failure_threshold (heap (snd (__init__ self (Some 0) rt ee nm w)) self) = 5
  /\ _recovery_timeout
       (heap (snd (__init__ self ft (Some 0%float) ee nm w)) self)
     = 30%float
  /\ (forall z : float, (z =? 0)%float = true ->
      _recovery_timeout (heap (snd (__init__ self ft (Some z) ee nm w)) self)
      = 30%float)
  /\ FAILURE_THRESHOLD = 5 /\ RECOVERY_TIMEOUT = 30%float.
Proof.
  repeat split; rewrite ?init_heap; try reflexivity.
  intros z Hz. rewrite init_heap. cbn [_recovery_timeout or_seconds].
  now rewrite Hz.
Qed.

End Construction.

Section Decoration.
Context {S A V : Type}.
Implicit Types (w : World S) (self : addr).

Lemma decorate_heap self (function : @pyfunction S A V) w :
  heap (snd (decorate self function w)) self =
  match _name (heap w self) with
  | None => with_name (Some (__name__ function)) (heap w self)
  | Some _ => heap w self
  end.
Proof.
  unfold decorate, CircuitBreakerMonitor.register, name, setattr, getattr,
    bind, ret.
  destruct (_name (heap w self)); wsimpl; reflexivity.
Qed.

End Decoration.
(** ** Reachable breakers *)

Section Reachable.
Context {S A V : Type}.
Implicit Types (w : World S) (self : addr) (func : @pyfunction S A V).

(** The records a breaker object can hold: what the constructor writes, and
    from there what a decoration or a call on that breaker leaves, in any
    world and for any operation. *)
Inductive reachable : CircuitBreaker -> Prop :=
| reachable_init self ft rt ee nm w :
    reachable (heap (snd (__init__ self ft rt ee nm w)) self)
| reachable_decorate self func w :
    reachable (heap w self) ->
    reachable (heap (snd (decorate self func w)) self)
| reachable_call self func args w :
    reachable (heap w self) ->
    reachable (heap (snd (call self func args w)) self).

Lemma stored_closed_or_open b :
  reachable b -> _state b = STATE_CLOSED \/ _state b = STATE_OPEN.
Proof.
  induction 1 as [self ft rt ee nm w | self func w _ IH
                 | self func args w _ IH].
  - rewrite init_heap. now left.
  - rewrite decorate_heap. now destruct (_name (heap w self)).
  - rewrite call_heap. cbv zeta.
    destruct (state_eqb _ _); [exact IH |].
    destruct (fst (body func args (env w))) as [v | x]; [now left |].
    destruct (isinstance _ _); [| exact IH].
    unfold failed. destruct (_ <=? _); [now right | exact IH].
Qed.

(** C8: a reachable breaker stores CLOSED or OPEN, never HALF_OPEN; reading
    [state] gives HALF_OPEN exactly when OPEN is stored and the clock has
    reached [_opened + _recovery_timeout], the sum and the comparison being
    those of binary64 numbers, and the stored state otherwise. *)
Theorem half_open_is_derived_only b :
  reachable b ->
  (_state b = STATE_CLOSED \/ _state b = STATE_OPEN)
  /\ forall self w,
       heap w self = b ->
       (fst (state self w) = Ok STATE_HALF_OPEN
        <-> _state b = STATE_OPEN
            /\ (_opened b + _recovery_timeout b <=? now w)%float = true)
       /\ (~ (_state b = STATE_OPEN
              /\ (_opened b + _recovery_timeout b <=? now w)%float = true)
           -> fst (state self w) = Ok (_state b)).
Proof.
  intros R. pose proof (stored_closed_or_open b R) as St.
  split; [exact St |]. intros self w <-.
  rewrite state_run. cbn [fst].
  pose proof (derived_half_open_iff (heap w self) (now w) (now_finite w))
    as Hh.
  split.
  - split.
    + intros H. injection H as H. apply Hh in H.
      destruct H as [[H | H] K]; [now auto |].
      destruct St as [St | St]; congruence.
    + intros [H K]. f_equal. apply Hh. now auto.
  - intros N. f_equal. rewrite derived_eq by apply now_finite.
    destruct (state_eqb (_state (heap w self)) STATE_OPEN) eqn:E; [| easy].
    destruct (_ <=? _)%float eqn:Q; [| easy].
    exfalso. apply N. apply state_eqb_eq in E. now split.
Qed.

End Reachable.

(** ** The failure counter *)

Lemma c_int_in_range z : INT_MIN <= z <= INT_MAX -> c_int z = z.
Proof.
  unfold INT_MIN, INT_MAX, c_int. intros H.
  rewrite Z.mod_small by lia. lia.
Qed.

Lemma c_int_overflow : c_int (INT_MAX + 1) = INT_MIN.
Proof. reflexivity. Qed.

Lemma failed_in_range b t :
  0 <= _failure_count b < INT_MAX ->
  failed b t =
  if _failure_threshold b <=? _failure_count b + 1
  then mkCircuitBreaker (_failure_count b + 1) (_failure_threshold b)
         (_recovery_timeout b) (_expected_exception b) (_name b)
         STATE_OPEN t
  else with_failure_count (_failure_count b + 1) b.
Proof.
  intros H. unfold failed, counted.
  rewrite c_int_in_range by (unfold INT_MIN, INT_MAX in *; lia).
  reflexivity.
Qed.

Section InRange.
Context {S A V : Type}.
Implicit Types (w : World S) (self : addr) (func : @pyfunction S A V).

(** Reachable without overflow of the counter: every call starts with a
    failure count below [INT_MAX]. *)
Inductive reachable_in_range : CircuitBreaker -> Prop :=
| in_range_init self ft rt ee nm w :
    reachable_in_range (heap (snd (__init__ self ft rt ee nm w)) self)
| in_range_decorate self func w :
    reachable_in_range (heap w self) ->
    reachable_in_range (heap (snd (decorate self func w)) self)
| in_range_call self func args w :
    reachable_in_range (heap w self) ->
    _failure_count (heap w self) < INT_MAX ->
    reachable_in_range (heap (snd (call self func args w)) self).

Lemma in_range_reachable b :
  reachable_in_range b -> reachable (S := S) (A := A) (V := V) b.
Proof. induction 1; now constructor. Qed.

Lemma in_range_invariant b :
  reachable_in_range b ->
  0 <= _failure_count b <= INT_MAX
  /\ (_state b = STATE_OPEN -> _failure_threshold b <= _failure_count b).
Proof.
  induction 1 as [self ft rt ee nm w | self func w _ IH
                 | self func args w _ IH Hlt].
  - rewrite init_heap. cbn [_failure_count _state].
    change (c_int 0) with 0. split; [unfold INT_MAX; lia | discriminate].
  - rewrite decorate_heap. now destruct (_name (heap w self)).
  - rewrite call_heap. cbv zeta.
    destruct (state_eqb _ _); [exact IH |].
    destruct (fst (body func args (env w))) as [v | x].
    { unfold succeeded. cbn [_failure_count _state with_failure_count].
      change (c_int 0) with 0. split; [unfold INT_MAX; lia | discriminate]. }
    destruct (isinstance _ _); [| exact IH].
    rewrite failed_in_range by lia.
    destruct (Z.leb_spec (_failure_threshold (heap w self))
                (_failure_count (heap w self) + 1)); cbn.
    + split; [lia | intros _; lia].
    + split; [lia |]. intros E. destruct IH as [_ IH]. specialize (IH E). lia.
Qed.

(** C9 (as amended): while the counter has not overflowed, a stored OPEN
    state comes with a failure count that reached the threshold; and a call
    that starts below [INT_MAX] lowers the count only by the
    success-transition, which returns the operation's result and stores
    CLOSED with a count of 0. *)
Theorem open_implies_threshold_reached b :
  reachable_in_range b ->
  (_state b = STATE_OPEN -> _failure_threshold b <= _failure_count b)
  /\ forall self func args w,
       heap w self = b ->
       _failure_count b < INT_MAX ->
       let r := call self func args w in
       _failure_count (heap (snd r) self) < _failure_count b ->
       (exists v, fst r = Ok v)
       /\ _state (heap (snd r) self) = STATE_CLOSED
       /\ _failure_count (heap (snd r) self) = 0.
Proof.
  intros R. destruct (in_range_invariant b R) as [Hc Ho].
  split; [exact Ho |]. intros self func args w <- Hlt. cbv zeta.
  rewrite call_heap, call_result. cbv zeta.
  destruct (state_eqb _ _); [lia |].
  destruct (fst (body func args (env w))) as [v | x].
  { intros _. split; [now exists v | now split]. }
  destruct (isinstance _ _); [| lia].
  rewrite failed_in_range by lia.
  destruct (_ <=? _); cbn; lia.
Qed.

(** C5 (as amended): a breaker reached without overflow whose derived state
    is HALF_OPEN and whose count is below [INT_MAX]: a call whose operation
    raises a guarded exception re-raises it, stores OPEN, and sets [_opened]
    to the clock read of the failure-transition (the read after the one of
    the first line); from then on [state] reads OPEN at every instant before
    the binary64 sum of that stamp and [_recovery_timeout], and HALF_OPEN
    from there on. *)
Theorem failed_trial_reopens self func args w x :
  reachable_in_range (heap w self) ->
  _failure_count (heap w self) < INT_MAX ->
  fst (state self w) = Ok STATE_HALF_OPEN ->
  fst (body func args (env w)) = inr x ->
  isinstance x (_expected_exception (heap w self)) = true ->
  let r := call self func args w in
  let stamp := seconds (clock w (Datatypes.S (ticks w))) in
  fst r = Raise x
  /\ _state (heap (snd r) self) = STATE_OPEN
  /\ _opened (heap (snd r) self) = stamp
  /\ _recovery_timeout (heap (snd r) self) = _recovery_timeout (heap w self)
  /\ forall w' : World S,
       heap w' self = heap (snd r) self ->
       ((now w' <? stamp + _recovery_timeout (heap w self))%float = true ->
        fst (state self w') = Ok STATE_OPEN)
       /\ ((stamp + _recovery_timeout (heap w self) <=? now w')%float = true
           -> fst (state self w') = Ok STATE_HALF_OPEN).
Proof.
  intros R Hlt D B G. cbv zeta.
  destruct (in_range_invariant _ R) as [Hc Ho].
  rewrite state_run in D. cbn [fst] in D. injection D as D.
  pose proof D as D'. apply derived_half_open_iff in D'; [| apply now_finite].
  destruct D' as [[St | St] _];
    [| destruct (stored_closed_or_open _ (in_range_reachable _ R));
       congruence].
  specialize (Ho St).
  rewrite call_result, call_heap. cbv zeta. rewrite D, B, G. cbn [state_eqb].
  rewrite failed_in_range by lia.
  destruct (Z.leb_spec (_failure_threshold (heap w self))
              (_failure_count (heap w self) + 1)); [| lia].
  unfold failure_instant, after_state. rewrite St.
  cbn [state_eqb tick now clock ticks _state _opened _recovery_timeout].
  do 4 (split; [reflexivity |]).
  intros w' Hw'. split; intros Hn; rewrite state_run; cbn [fst]; f_equal.
  - apply derived_open_iff; [apply now_finite |]. rewrite Hw'.
    cbn [_state _opened _recovery_timeout].
    split; [reflexivity | now apply ltb_leb_false].
  - apply derived_half_open_iff; [apply now_finite |]. rewrite Hw'.
    cbn [_state _opened _recovery_timeout]. split; [now left | easy].
Qed.

End InRange.
(** ** Consecutive failures *)

Section Consecutive.
Context {S A V : Type}.
Implicit Types (w : World S) (self : addr) (func : @pyfunction S A V).

(** [n] calls in a row, the caller going on whatever each one raises. *)
Fixpoint calls (n : nat) self func (args : A) w : World S :=
  match n with
  | O => w
  | Datatypes.S n' => calls n' self func args (snd (call self func args w))
  end.

(** The operation raises, every time, an exception of class [cls]. *)
Definition raises_guarded func (args : A) (cls : pyclass) : Prop :=
  forall s, exists x,
    fst (body func args s) = inr x /\ isinstance x cls = true.

Lemma calls_succ_r n self func args w :
  calls (Datatypes.S n) self func args w =
  snd (call self func args (calls n self func args w)).
Proof.
  revert w. induction n as [| n IH]; intros w; [reflexivity |].
  change (calls (Datatypes.S (Datatypes.S n)) self func args w)
    with (calls (Datatypes.S n) self func args (snd (call self func args w))).
  now rewrite IH.
Qed.

Lemma call_guarded_failure self func args w :
  _state (heap w self) = STATE_CLOSED ->
  raises_guarded func args (_expected_exception (heap w self)) ->
  heap (snd (call self func args w)) self = failed (heap w self) (now w).
Proof.
  intros St G. rewrite call_heap. cbv zeta.
  assert (derived (heap w self) (now w) = STATE_CLOSED) as ->
    by now apply derived_closed_iff.
  cbn [state_eqb]. destruct (G (env w)) as (e & -> & ->).
  unfold failure_instant, after_state. now rewrite St.
Qed.

Lemma calls_below_threshold n self func args w :
  _state (heap w self) = STATE_CLOSED ->
  0 <= _failure_count (heap w self) ->
  _failure_count (heap w self) + Z.of_nat n < _failure_threshold (heap w self) ->
  _failure_count (heap w self) + Z.of_nat n <= INT_MAX ->
  raises_guarded func args (_expected_exception (heap w self)) ->
  heap (calls n self func args w) self =
  with_failure_count (_failure_count (heap w self) + Z.of_nat n) (heap w self).
Proof.
  revert w. induction n as [| n IH]; intros w St C0 CT CM G.
  - cbn [calls]. rewrite Z.add_0_r. now destruct (heap w self).
  - cbn [calls].
    pose proof (call_guarded_failure self func args w St G) as E.
    rewrite failed_in_range in E by lia.
    destruct (Z.leb_spec (_failure_threshold (heap w self))
                (_failure_count (heap w self) + 1)) as [L | L]; [lia |].
    rewrite IH; rewrite E; cbn; try assumption; try lia.
    unfold with_failure_count. cbn. f_equal. lia.
Qed.

(** C2 (as amended): a breaker storing CLOSED with a count of 0 and a
    threshold [T] between 1 and [INT_MAX]: after [T] calls in a row whose
    operation raises a guarded exception, OPEN is stored, the count is [T],
    [_opened] is the clock read of the last call's failure-transition, and
    [state] reads OPEN at every instant before [_opened + _recovery_timeout],
    the sum and the comparison being those of binary64 numbers. *)
Theorem threshold_failures_open self func args w :
  let b := heap w self in
  let T := _failure_threshold b in
  _state b = STATE_CLOSED ->
  _failure_count b = 0 ->
  1 <= T <= INT_MAX ->
  raises_guarded func args (_expected_exception b) ->
  let w' := calls (Z.to_nat T) self func args w in
  _state (heap w' self) = STATE_OPEN
  /\ _failure_count (heap w' self) = T
  /\ _opened (heap w' self) = now (calls (Z.to_nat (T - 1)) self func args w)
  /\ _recovery_timeout (heap w' self) = _recovery_timeout b
  /\ forall w'' : World S,
       heap w'' self = heap w' self ->
       (now w'' <? _opened (heap w' self) + _recovery_timeout b)%float = true ->
       fst (state self w'') = Ok STATE_OPEN.
Proof.
  cbv zeta. intros St C0 HT G.
  replace (Z.to_nat (_failure_threshold (heap w self)))
    with (Datatypes.S (Z.to_nat (_failure_threshold (heap w self) - 1)))
    by lia.
  set (n := Z.to_nat (_failure_threshold (heap w self) - 1)).
  assert (Z.of_nat n = _failure_threshold (heap w self) - 1) as Hn
    by (unfold n; lia).
  rewrite calls_succ_r.
  pose proof (calls_below_threshold n self func args w St) as Hb.
  rewrite C0 in Hb.
  specialize (Hb ltac:(lia) ltac:(lia) ltac:(lia) G).
  rewrite Z.add_0_l in Hb.
  set (wn := calls n self func args w) in *.
  assert (heap (snd (call self func args wn)) self
          = failed (heap wn self) (now wn)) as E.
  { apply call_guarded_failure; rewrite Hb; cbn; assumption. }
  rewrite failed_in_range in E by (rewrite Hb; cbn; lia).
  rewrite Hb in E. cbn in E.
  destruct (Z.leb_spec (_failure_threshold (heap w self)) (Z.of_nat n + 1))
    as [L | L]; [| lia].
  rewrite E. cbn [_state _failure_count _opened _recovery_timeout].
  do 4 (split; [reflexivity || lia |]).
  intros w'' Hw Hlt. rewrite state_run. cbn [fst]. f_equal.
  apply derived_open_iff; [apply now_finite |]. rewrite Hw.
  cbn [_state _opened _recovery_timeout].
  split; [reflexivity | now apply ltb_leb_false].
Qed.

Lemma calls_clock n self func args w :
  clock (calls n self func args w) = clock w.
Proof.
  revert w. induction n as [| n IH]; intros w; [reflexivity |].
  cbn [calls]. rewrite IH. apply call_registry_and_clock.
Qed.

Lemma calls_reachable n self func args w :
  @reachable S A V (heap w self) ->
  @reachable S A V (heap (calls n self func args w) self).
Proof.
  revert w. induction n as [| n IH]; intros w R; [exact R |].
  cbn [calls]. apply IH. now apply reachable_call.
Qed.

(** The record that [T] guarded failures in a row leave, [T] being the
    threshold. *)
Lemma calls_open_record self func args w T :
  let b := heap w self in
  _failure_threshold b = T ->
  _state b = STATE_CLOSED ->
  _failure_count b = 0 ->
  1 <= T <= INT_MAX ->
  raises_guarded func args (_expected_exception b) ->
  heap (calls (Z.to_nat T) self func args w) self =
  mkCircuitBreaker T T (_recovery_timeout b) (_expected_exception b) (_name b)
    STATE_OPEN (now (calls (Z.to_nat (T - 1)) self func args w)).
Proof.
  cbv zeta. intros <- St C0 HT G.
  replace (Z.to_nat (_failure_threshold (heap w self)))
    with (Datatypes.S (Z.to_nat (_failure_threshold (heap w self) - 1)))
    by lia.
  set (n := Z.to_nat (_failure_threshold (heap w self) - 1)).
  assert (Z.of_nat n = _failure_threshold (heap w self) - 1) as Hn
    by (unfold n; lia).
  rewrite calls_succ_r.
  pose proof (calls_below_threshold n self func args w St) as Hb.
  rewrite C0 in Hb.
  specialize (Hb ltac:(lia) ltac:(lia) ltac:(lia) G).
  rewrite Z.add_0_l in Hb.
  set (wn := calls n self func args w) in *.
  assert (heap (snd (call self func args wn)) self
          = failed (heap wn self) (now wn)) as E.
  { apply call_guarded_failure; rewrite Hb; cbn; assumption. }
  rewrite failed_in_range in E by (rewrite Hb; cbn; lia).
  rewrite Hb in E. cbn in E.
  destruct (Z.leb_spec (_failure_threshold (heap w self)) (Z.of_nat n + 1))
    as [L | L]; [| lia].
  rewrite E. f_equal. lia.
Qed.

(** Past [INT_MAX] the counter wraps: with a threshold above [INT_MAX],
    [INT_MAX + 1] failures in a row leave the breaker CLOSED with a count of
    [INT_MIN]. *)
Lemma calls_overflow n self func args w :
  Z.of_nat n = INT_MAX + 1 ->
  INT_MAX < _failure_threshold (heap w self) ->
  _state (heap w self) = STATE_CLOSED ->
  _failure_count (heap w self) = 0 ->
  raises_guarded func args (_expected_exception (heap w self)) ->
  heap (calls n self func args w) self = with_failure_count INT_MIN (heap w self).
Proof.
  intros Hn HT St C0 G.
  destruct n as [| m]; [unfold INT_MAX in Hn; lia |].
  assert (Z.of_nat m = INT_MAX) as Hm by lia.
  rewrite calls_succ_r.
  pose proof (calls_below_threshold m self func args w St) as Hb.
  rewrite C0 in Hb.
  specialize (Hb ltac:(lia) ltac:(lia) ltac:(lia) G).
  rewrite Z.add_0_l in Hb.
  set (wm := calls m self func args w) in *.
  rewrite call_guarded_failure by (rewrite Hb; cbn; assumption).
  rewrite Hb. unfold failed, counted.
  cbn [_failure_count _failure_threshold with_failure_count].
  rewrite Hm, c_int_overflow.
  destruct (Z.leb_spec (_failure_threshold (heap w self)) INT_MIN) as [L | L];
    [unfold INT_MIN, INT_MAX in *; lia | reflexivity].
Qed.

End Consecutive.

(** ** The monitor's predicates *)

Section MonitorReads.
Context {S : Type}.
Implicit Types (w : World S) (self : addr).

(** C3 (as amended): read at one instant, [opened] and [closed] never both
    hold for a breaker, registered or not; one of them holds exactly when
    the derived state is not HALF_OPEN, and in HALF_OPEN both are false; and
    [all_closed()] is true if and only if [get_open()] yields no breaker. *)
Theorem opened_closed_at_most_one self w :
  let o := fst (opened self w) in
  let c := fst (closed self w) in
  ~ (o = Ok true /\ c = Ok true)
  /\ ((o = Ok true \/ c = Ok true)
      <-> fst (state self w) <> Ok STATE_HALF_OPEN)
  /\ (fst (state self w) = Ok STATE_HALF_OPEN
      -> o = Ok false /\ c = Ok false)
  /\ (fst (CircuitBreakerMonitor.all_closed w) = Ok true
      <-> fst (CircuitBreakerMonitor.get_open w) = Ok []).
Proof.
  cbv zeta. rewrite opened_run, closed_run, state_run. cbn [fst].
  split; [| split; [| split]].
  - destruct (derived (heap w self) (now w)); cbn; intros [H1 H2];
      discriminate.
  - destruct (derived (heap w self) (now w)); cbn; split;
      try discriminate; try tauto; try (intros _; now auto).
    intros [H | H]; discriminate.
  - intros H. injection H as ->. now split.
  - unfold CircuitBreakerMonitor.all_closed, bind, ret.
    destruct (CircuitBreakerMonitor.get_open w) as [[l | x] w'];
      cbn [fst]; [| split; discriminate].
    destruct l; cbn; split; congruence.
Qed.

End MonitorReads.

(** ** The message of a rejection *)














Section Message.
Context {S : Type}.
Variable str_float : float -> string.
Implicit Types (w : World S).



End Message.

(** * The breaker of the repository's script

    [test_script.py] builds a breaker with a threshold of 8 failures and a
    recovery timeout of 8 seconds around a function that always raises
    [ValueError].  The worlds below run it against chosen clocks. *)

Definition ValueError (args : string) : exn :=
  PythonError
    {| exc_mro := ["ValueError"; "StandardError"; "Exception";
                   "BaseException"; "object"]%string;
       exc_args := args |}.

Definition KeyboardInterrupt : exn :=
  PythonError
    {| exc_mro := ["KeyboardInterrupt"; "BaseException"; "object"]%string;
       exc_args := ""%string |}.

(** [def test(): raise ValueError("sorry rogan")] *)
Definition test : @pyfunction unit unit unit :=
  mkFunction "test" (fun _ s => (inr (ValueError "sorry rogan"), s)).

(** An operation that answers, one interrupted from the keyboard, and one
    that goes through another breaker, at address 1, which rejects it. *)
Definition answer : @pyfunction unit unit unit :=
  mkFunction "answer" (fun _ s => (inl tt, s)).
Definition interrupted : @pyfunction unit unit unit :=
  mkFunction "interrupted" (fun _ s => (inr KeyboardInterrupt, s)).
Definition nested : @pyfunction unit unit unit :=
  mkFunction "nested" (fun _ s => (inr (CircuitBreakerError 1%nat), s)).

(** The clock reading [x]; what is no number of seconds reads as the
    epoch. *)
Definition instant_of (x : float) : instant :=
  match is_finite x as f return is_finite x = f -> instant with
  | true => fun H => at_seconds x H
  | false => fun _ => at_seconds 0 eq_refl
  end eq_refl.

(** The binary64 number nearest to a whole number, and the clock reading a
    whole number of seconds after the epoch. *)
Definition float_of_Z (z : Z) : float :=
  SF2Prim (binary_normalize prec emax z 0 false).
Definition second (z : Z) : instant := instant_of (float_of_Z z).

(** A clock that advances by [step] seconds between two reads. *)
Definition every (step : Z) : nat -> instant :=
  fun n => second (step * Z.of_nat n).

(** The world before the breaker is built: what its address holds then does
    not matter. *)
Definition blank (clk : nat -> instant) : World unit :=
  mkWorld clk 0%nat
    (fun _ => mkCircuitBreaker 0 0 0 "" None STATE_CLOSED 0) ∅ [] tt.

(** [A = CircuitBreaker(failure_threshold=8, name="rogan-tset",
    expected_exception=ValueError, recovery_timeout=8)], then [@A]. *)
Definition constructed (clk : nat -> instant) : World unit :=
  snd (__init__ 0%nat (Some 8) (Some 8%float) (Some "ValueError"%string)
         (Some "rogan-tset"%string) (blank clk)).
Definition decorated (clk : nat -> instant) : World unit :=
  snd (decorate 0%nat test (constructed clk)).

Ltac in_range :=
  cbn [calls];
  repeat (apply in_range_call; [| vm_compute; reflexivity]);
  apply in_range_decorate; apply in_range_init.

Lemma test_raises_guarded : raises_guarded test tt "ValueError"%string.
Proof. intros s. eexists. split; reflexivity. Defined.

(** ** Instances of the theorems *)

(** C2 on the script's breaker: eight failures in a row open it. *)
Lemma threshold_failures_open_witness :
  let w := decorated (every 1) in
  let w' := calls 8 0%nat test tt w in
  (_state (heap w 0%nat) = STATE_CLOSED
   /\ _failure_count (heap w 0%nat) = 0
   /\ 1 <= _failure_threshold (heap w 0%nat) <= INT_MAX)
  /\ _state (heap w' 0%nat) = STATE_OPEN
  /\ _failure_count (heap w' 0%nat) = 8.
Proof.
  cbv zeta.
  assert (H3 : 1 <= _failure_threshold (heap (decorated (every 1)) 0%nat)
               <= INT_MAX) by (split; discriminate).
  split; [split; [reflexivity | split; [reflexivity | exact H3]] |].
  destruct (threshold_failures_open 0%nat test tt (decorated (every 1))
              eq_refl eq_refl H3 test_raises_guarded) as (E1 & E2 & _).
  split; [exact E1 | exact E2].
Defined.

(** C5 on the script's breaker: with reads 10 seconds apart the ninth call
    is a trial, and its failure stamps [_opened] anew. *)
Lemma failed_trial_reopens_witness :
  let w := calls 8 0%nat test tt (decorated (every 10)) in
  let r := call 0%nat test tt w in
  (_failure_count (heap w 0%nat) < INT_MAX
   /\ fst (state 0%nat w) = Ok STATE_HALF_OPEN)
  /\ fst r = Raise (ValueError "sorry rogan")
  /\ _state (heap (snd r) 0%nat) = STATE_OPEN
  /\ _opened (heap (snd r) 0%nat)
     = seconds (clock w (Datatypes.S (ticks w))).
Proof.
  cbv zeta.
  assert (R : @reachable_in_range unit unit unit
                (heap (calls 8 0%nat test tt (decorated (every 10))) 0%nat))
    by in_range.
  split; [split; reflexivity |].
  destruct (failed_trial_reopens 0%nat test tt _ (ValueError "sorry rogan")
              R eq_refl eq_refl eq_refl eq_refl) as (E1 & E2 & E3 & _).
  split; [exact E1 | split; [exact E2 | exact E3]].
Defined.

(** C6 on the script's breaker: an answer after three failures resets it. *)
Lemma call_success_closes_witness :
  let w := calls 3 0%nat test tt (decorated (every 1)) in
  let r := call 0%nat answer tt w in
  fst (state 0%nat w) = Ok STATE_CLOSED
  /\ _failure_count (heap w 0%nat) = 3
  /\ fst r = Ok tt
  /\ _failure_count (heap (snd r) 0%nat) = 0
  /\ fst (state 0%nat (snd r)) = Ok STATE_CLOSED.
Proof.
  cbv zeta. split; [reflexivity | split; [reflexivity |]].
  destruct (call_success_closes 0%nat answer tt
              (calls 3 0%nat test tt (decorated (every 1))) tt
              (or_introl eq_refl) eq_refl) as (E1 & E2 & E3 & _).
  split; [exact E1 | split; [exact E2 | exact E3]].
Defined.

(** C7 on the script's breaker: a [KeyboardInterrupt] is no [ValueError]
    and leaves the three failures counted so far. *)
Lemma call_unguarded_untouched_witness :
  let w := calls 3 0%nat test tt (decorated (every 1)) in
  let r := call 0%nat interrupted tt w in
  isinstance KeyboardInterrupt (_expected_exception (heap w 0%nat)) = false
  /\ _failure_count (heap (snd r) 0%nat) = 3
  /\ _state (heap (snd r) 0%nat) = STATE_CLOSED
  /\ fst r = Raise KeyboardInterrupt.
Proof.
  cbv zeta. split; [reflexivity |].
  destruct (call_unguarded_untouched 0%nat interrupted tt
              (calls 3 0%nat test tt (decorated (every 1))) KeyboardInterrupt
              eq_refl eq_refl) as (E1 & E2 & _ & _ & E4).
  split; [exact E1 | split; [exact E2 |]].
  apply E4. discriminate.
Defined.

(** C8 on the script's breaker, opened and read 10 seconds later. *)
Lemma half_open_is_derived_only_witness :
  let w := calls 8 0%nat test tt (decorated (every 10)) in
  _state (heap w 0%nat) = STATE_OPEN
  /\ (fst (state 0%nat w) = Ok STATE_HALF_OPEN
      <-> _state (heap w 0%nat) = STATE_OPEN
          /\ (_opened (heap w 0%nat) + _recovery_timeout (heap w 0%nat)
              <=? now w)%float = true).
Proof.
  cbv zeta. split; [reflexivity |].
  assert (R : @reachable unit unit unit
                (heap (calls 8 0%nat test tt (decorated (every 10))) 0%nat))
    by (apply in_range_reachable; in_range).
  destruct (half_open_is_derived_only _ R) as [_ H].
  exact (proj1 (H 0%nat _ eq_refl)).
Defined.

(** C9 on the script's breaker once open. *)
Lemma open_implies_threshold_reached_witness :
  let w := calls 8 0%nat test tt (decorated (every 10)) in
  _state (heap w 0%nat) = STATE_OPEN
  /\ _failure_threshold (heap w 0%nat) <= _failure_count (heap w 0%nat).
Proof.
  cbv zeta. split; [reflexivity |].
  assert (R : @reachable_in_range unit unit unit
                (heap (calls 8 0%nat test tt (decorated (every 10))) 0%nat))
    by in_range.
  destruct (open_implies_threshold_reached _ R) as [H _].
  exact (H eq_refl).
Defined.

(** The same world with a call counter beside the environment. *)
Definition counted_world (w : World unit) : World (unit * nat) :=
  mkWorld (clock w) (ticks w) (heap w) (circuit_breakers w) (stats w)
    (env w, 0%nat).

(** C1 on the script's breaker: rejected while open, the counter of [test]
    staying at 0; let through when fresh, the counter going to 1. *)
Lemma call_rejects_iff_open_witness :
  let open := counted_world (calls 8 0%nat test tt (decorated (every 1))) in
  let fresh := counted_world (decorated (every 1)) in
  (fst (state 0%nat open) = Ok STATE_OPEN
   /\ fst (call 0%nat (counting test) tt open)
      = Raise (CircuitBreakerError 0%nat)
   /\ snd (env (snd (call 0%nat (counting test) tt open))) = 0%nat)
  /\ (fst (state 0%nat fresh) = Ok STATE_CLOSED
      /\ snd (env (snd (call 0%nat (counting test) tt fresh))) = 1%nat
      /\ fst (call 0%nat (counting test) tt fresh)
         = Raise (ValueError "sorry rogan")).
Proof.
  cbv zeta. split.
  - destruct (call_rejects_iff_open 0%nat test tt
                (counted_world (calls 8 0%nat test tt (decorated (every 1)))))
      as (_ & _ & _ & H & _).
    destruct (H eq_refl) as [E1 E2].
    split; [reflexivity | split; [exact E1 |]]. now rewrite E2.
  - destruct (call_rejects_iff_open 0%nat test tt
                (counted_world (decorated (every 1))))
      as (_ & _ & _ & _ & H & _).
    destruct (H (or_introl eq_refl)) as (E1 & _ & E3).
    split; [reflexivity | split; [exact E1 | exact E3]].
Defined.

(** C3 on the script's breaker while open. *)
Lemma opened_closed_at_most_one_witness :
  let w := calls 8 0%nat test tt (decorated (every 1)) in
  fst (opened 0%nat w) = Ok true
  /\ fst (closed 0%nat w) = Ok false
  /\ (fst (opened 0%nat w) = Ok true \/ fst (closed 0%nat w) = Ok true
      <-> fst (state 0%nat w) <> Ok STATE_HALF_OPEN).
Proof.
  cbv zeta. split; [reflexivity | split; [reflexivity |]].
  exact (proj1 (proj2 (opened_closed_at_most_one 0%nat
                         (calls 8 0%nat test tt (decorated (every 1)))))).
Defined.



(** C10 at [CircuitBreaker(failure_threshold=0, recovery_timeout=0)]. *)
Lemma init_zero_takes_default_witness :
  _failure_threshold
    (heap (snd (__init__ 0%nat (Some 0) (Some 0%float) None None
                  (blank (every 1)))) 0%nat) = 5
  /\ _recovery_timeout
       (heap (snd (__init__ 0%nat (Some 0) (Some 0%float) None None
                     (blank (every 1)))) 0%nat) = 30%float.
Proof.
  destruct (init_zero_takes_default 0%nat (Some 0) (Some 0%float) None None
              (blank (every 1))) as (E1 & E2 & _).
  split; [exact E1 | exact E2].
Defined.

(** ** Where the claims as first stated fail *)

(** A clock that reads [t] until the [n]-th read and [t'] from there on. *)
Definition jumping (n : nat) (t t' : instant) : nat -> instant :=
  fun k => if Nat.ltb k n then t else t'.

(** A breaker like the script's, with another threshold and recovery
    timeout, decorated. *)
Definition configured (failure_threshold : Z) (recovery_timeout : float)
    (clk : nat -> instant) : World unit :=
  snd (decorate 0%nat test
         (snd (__init__ 0%nat (Some failure_threshold) (Some recovery_timeout)
                 (Some "ValueError"%string) (Some "rogan-tset"%string)
                 (blank clk)))).

(** The binary64 numbers that [0.1] and [0.6] denote. *)
Definition tenth : float := 0x1.999999999999ap-4.
Definition six_tenths : float := 0x1.3333333333333p-1.

(** C1 as stated fails in two ways.  The script's breaker, CLOSED, lets a
    call through to an operation that another breaker rejects: the call has
    invoked the operation and raises a CircuitBreakerError, the one of that
    other breaker.  And a breaker built with [recovery_timeout=float('nan')]
    rejects calls once open, although [now < _opened + _recovery_timeout]
    is false. *)
Lemma closed_call_raises_circuit_breaker_error :
  (let w := counted_world (decorated (every 1)) in
   let r := call 0%nat (counting nested) tt w in
   fst (state 0%nat w) = Ok STATE_CLOSED
   /\ fst r = Raise (CircuitBreakerError 1%nat)
   /\ snd (env w) = 0%nat
   /\ snd (env (snd r)) = 1%nat)
  /\ (let w := calls 1 0%nat test tt (configured 1 nan (every 1)) in
      let b := heap w 0%nat in
      _state b = STATE_OPEN
      /\ fst (state 0%nat w) = Ok STATE_OPEN
      /\ fst (call 0%nat test tt w) = Raise (CircuitBreakerError 0%nat)
      /\ (now w <? _opened b + _recovery_timeout b)%float = false).
Proof. cbv zeta. repeat split; vm_compute; reflexivity. Qed.

(** C2 as stated fails in three ways.  Eight failures open the script's
    breaker at second 100; read at second 108, when the recovery timeout has
    run out, its state is HALF_OPEN, not OPEN.  A breaker with a threshold
    of 1 and a recovery timeout of 0.1 that opens at 0.5 is HALF_OPEN when
    read at 0.6, which as a number is less than the sum of 0.5 and 0.1: the
    sum that [open_until] makes is rounded, to 0.6.  And a breaker whose
    threshold is 2^31 is still CLOSED after 2^31 failures in a row: its
    counter has wrapped to [INT_MIN]. *)
Lemma threshold_failures_then_half_open :
  (let w' := calls 8 0%nat test tt
               (decorated (jumping 3 (second 100) (second 108))) in
   _failure_threshold (heap w' 0%nat) = 8
   /\ _opened (heap w' 0%nat) = 100%float
   /\ now w' = 108%float
   /\ fst (state 0%nat w') = Ok STATE_HALF_OPEN)
  /\ (let w' := calls 1 0%nat test tt
                  (configured 1 tenth
                     (jumping 2 (instant_of 0.5) (instant_of six_tenths))) in
      _opened (heap w' 0%nat) = 0.5%float
      /\ _recovery_timeout (heap w' 0%nat) = tenth
      /\ now w' = six_tenths
      /\ value six_tenths < value 0.5 + value tenth
      /\ (0.5 + tenth)%float = six_tenths
      /\ fst (state 0%nat w') = Ok STATE_HALF_OPEN)
  /\ (let w := snd (__init__ 0%nat (Some 2147483648) None None None
                      (blank (every 1))) in
      let w' := calls (Z.to_nat 2147483648) 0%nat test tt w in
      _failure_threshold (heap w 0%nat) = 2147483648
      /\ _failure_count (heap w' 0%nat) = INT_MIN
      /\ fst (state 0%nat w') = Ok STATE_CLOSED).
Proof.
  cbv zeta. split; [| split].
  - repeat split; vm_compute; reflexivity.
  - repeat split; vm_compute; reflexivity.
  - set (w := snd (__init__ 0%nat (Some 2147483648) None None None
                     (blank (every 1)))).
    assert (G : raises_guarded test tt (_expected_exception (heap w 0%nat))).
    { intros s. eexists. split; reflexivity. }
    pose proof (calls_overflow (Z.to_nat 2147483648) 0%nat test tt w
                  (Z2Nat.id 2147483648 ltac:(discriminate))
                  eq_refl eq_refl eq_refl G) as E.
    split; [reflexivity |].
    rewrite state_run, E. split; reflexivity.
Qed.

(** C3 as stated fails on a registered breaker whose recovery timeout has
    run out: the script's breaker, opened at second 100 and read at second
    108, is neither [opened] nor [closed]. *)
Lemma half_open_neither_opened_nor_closed :
  let w := calls 8 0%nat test tt
             (decorated (jumping 3 (second 100) (second 108))) in
  circuit_breakers w !! Some "rogan-tset"%string = Some 0%nat
  /\ fst (state 0%nat w) = Ok STATE_HALF_OPEN
  /\ fst (opened 0%nat w) = Ok false
  /\ fst (closed 0%nat w) = Ok false.
Proof. cbv zeta. repeat split; vm_compute; reflexivity. Qed.


(** ** At the end of the counter

    A breaker like the script's whose threshold is 2^31 - 1, the largest
    value of its counter: that many failures in a row open it. *)

(** A world whose store holds [b] and whose clock stands at [t]. *)
Definition holding (b : CircuitBreaker) (t : instant) : World unit :=
  mkWorld (fun _ => t) 0%nat (fun _ => b) ∅ [] tt.

(** The breaker after 2^31 - 1 failures in a row, all at second 100. *)
Definition worn : CircuitBreaker :=
  mkCircuitBreaker INT_MAX INT_MAX 8 "ValueError" (Some "rogan-tset"%string)
    STATE_OPEN 100.

Lemma worn_reachable : @reachable unit unit unit worn.
Proof.
  set (w := configured INT_MAX 8 (fun _ => second 100)).
  assert (G : raises_guarded test tt (_expected_exception (heap w 0%nat))).
  { intros s. eexists. split; reflexivity. }
  pose proof (calls_open_record 0%nat test tt w INT_MAX eq_refl eq_refl
                eq_refl ltac:(split; discriminate) G) as E.
  assert (now (calls (Z.to_nat (INT_MAX - 1)) 0%nat test tt w) = 100%float)
    as N by (unfold now; rewrite calls_clock; reflexivity).
  rewrite N in E.
  change (mkCircuitBreaker INT_MAX INT_MAX _ _ _ STATE_OPEN 100) with worn
    in E.
  rewrite <- E. apply calls_reachable.
  unfold w, configured. apply reachable_decorate, reachable_init.
Qed.

(** C5 as stated fails at the end of the counter: that breaker is reachable
    and HALF_OPEN at second 108, and a failed trial then wraps the count to
    [INT_MIN], below the threshold, so [_opened] keeps its old stamp and the
    state read next is HALF_OPEN. *)
Lemma failed_trial_at_int_max :
  let w := holding worn (second 108) in
  let r := call 0%nat test tt w in
  @reachable unit unit unit (heap w 0%nat)
  /\ fst (state 0%nat w) = Ok STATE_HALF_OPEN
  /\ isinstance (ValueError "sorry rogan") (_expected_exception (heap w 0%nat))
     = true
  /\ fst r = Raise (ValueError "sorry rogan")
  /\ _failure_count (heap (snd r) 0%nat) = INT_MIN
  /\ _opened (heap (snd r) 0%nat) = _opened (heap w 0%nat)
  /\ now (snd r) = 108%float
  /\ fst (state 0%nat (snd r)) = Ok STATE_HALF_OPEN.
Proof.
  cbv zeta. split; [exact worn_reachable |].
  repeat split; vm_compute; reflexivity.
Qed.

(** C9 as stated fails at the same place: the record that failed trial
    leaves is reachable, stores OPEN, and counts [INT_MIN] failures, fewer
    than its threshold and fewer than before the call. *)
Lemma open_below_threshold :
  let b := mkCircuitBreaker INT_MIN INT_MAX 8 "ValueError"
             (Some "rogan-tset"%string) STATE_OPEN 100 in
  @reachable unit unit unit b
  /\ _state b = STATE_OPEN
  /\ _failure_count b < _failure_threshold b
  /\ b = heap (snd (call 0%nat test tt (holding worn (second 108)))) 0%nat
  /\ _failure_count b < _failure_count worn.
Proof.
  cbv zeta. split; [| repeat split; vm_compute; reflexivity].
  change (@reachable unit unit unit
            (heap (snd (call 0%nat test tt (holding worn (second 108))))
               0%nat)).
  apply reachable_call. exact worn_reachable.
Qed.
(** * Further properties *)

(** ** What reading leaves behind *)

Section Reads.
Context {S : Type}.
Implicit Types (w : World S) (a self : addr).

(** [w'] is [w] after some clock reads and nothing else. *)
Definition only_read w w' : Prop :=
  clock w' = clock w /\ heap w' = heap w
  /\ circuit_breakers w' = circuit_breakers w
  /\ stats w' = stats w /\ env w' = env w
  /\ (ticks w <= ticks w')%nat.

Lemma only_read_refl w : only_read w w.
Proof. unfold only_read. repeat split; reflexivity. Qed.

Lemma only_read_trans w1 w2 w3 :
  only_read w1 w2 -> only_read w2 w3 -> only_read w1 w3.
Proof.
  unfold only_read.
  intros (A1 & A2 & A3 & A4 & A5 & A6) (B1 & B2 & B3 & B4 & B5 & B6).
  repeat split; try congruence. lia.
Qed.

Lemma only_read_after_state self w : only_read w (after_state self w).
Proof.
  unfold after_state. destruct (state_eqb _ _); [| apply only_read_refl].
  unfold only_read. cbn. repeat split; try reflexivity. lia.
Qed.

(** A breaker is registered when some name of the monitor leads to it. *)
Definition registered w a : Prop :=
  exists n, circuit_breakers w !! n = Some a.

Lemma get_circuits_registered w a :
  a ∈ (map_to_list (circuit_breakers w)).*2 <-> registered w a.
Proof.
  unfold registered. rewrite list_elem_of_fmap. split.
  - intros ([n b] & -> & H). exists n. now apply elem_of_map_to_list.
  - intros (n & H). exists (n, a). split; [reflexivity |].
    now apply elem_of_map_to_list.
Qed.

Lemma select_closed_run (cs : list addr) w :
  exists w',
    CircuitBreakerMonitor.select closed cs w =
    (Ok (List.filter
           (fun a => state_eqb (_state (heap w a)) STATE_CLOSED) cs), w')
    /\ only_read w w'.
Proof.
  revert w. induction cs as [| c cs IH]; intros w.
  - exists w. split; [reflexivity | apply only_read_refl].
  - cbn [CircuitBreakerMonitor.select List.filter]. unfold bind at 1.
    rewrite closed_run.
    destruct (IH (after_state c w)) as (w' & E & R).
    unfold bind at 1. rewrite E. unfold ret.
    pose proof (only_read_after_state c w) as R0.
    exists w'. split; [| eapply only_read_trans; eassumption].
    destruct R0 as (_ & Hh & _). rewrite Hh.
    replace (state_eqb (derived (heap w c) (now w)) STATE_CLOSED)
      with (state_eqb (_state (heap w c)) STATE_CLOSED); [reflexivity |].
    unfold derived. destruct (_state (heap w c)); cbn; try reflexivity.
    now destruct (_ <=? _)%float.
Qed.

Lemma select_opened_run (cs : list addr) w :
  exists l w',
    CircuitBreakerMonitor.select opened cs w = (Ok l, w')
    /\ only_read w w'
    /\ (forall a, a ∈ l -> a ∈ cs /\ _state (heap w a) = STATE_OPEN)
    /\ (forall t, (forall k, clock w k = t) ->
        l = List.filter
              (fun a => state_eqb (derived (heap w a) (seconds t)) STATE_OPEN)
              cs).
Proof.
  revert w. induction cs as [| c cs IH]; intros w.
  - exists [], w. split; [reflexivity |]. split; [apply only_read_refl |].
    split; [| reflexivity]. intros a H. now apply elem_of_nil in H.
  - cbn [CircuitBreakerMonitor.select List.filter]. unfold bind at 1.
    rewrite opened_run.
    destruct (IH (after_state c w)) as (l & w' & E & R & Sd & Ex).
    unfold bind at 1. rewrite E. unfold ret.
    pose proof (only_read_after_state c w) as R0.
    pose proof R0 as (Hc & Hh & _).
    exists (if state_eqb (derived (heap w c) (now w)) STATE_OPEN
            then c :: l else l), w'.
    split; [reflexivity |].
    split; [eapply only_read_trans; eassumption |].
    rewrite Hh in Sd, Ex. split.
    + intros a Ha.
      destruct (state_eqb (derived (heap w c) (now w)) STATE_OPEN) eqn:D.
      * apply elem_of_cons in Ha. destruct Ha as [-> | Ha].
        -- split; [apply elem_of_cons; now left |].
           apply state_eqb_eq in D.
           now apply derived_open_iff in D; [| apply now_finite].
        -- destruct (Sd a Ha). split; [apply elem_of_cons; now right | easy].
      * destruct (Sd a Ha). split; [apply elem_of_cons; now right | easy].
    + intros t Ht. unfold now. rewrite Ht.
      rewrite (Ex t) by (intros k; rewrite Hc; apply Ht).
      reflexivity.
Qed.

End Reads.

(** ** The monitor *)

Section MonitorProperties.
Context {S : Type}.
Implicit Types (w : World S) (a cb : addr).

(** X1: [get_closed()] never raises, reads and writes nothing but the clock,
    and yields exactly the registered breakers that store CLOSED, whatever
    the clock says. *)
Theorem get_closed_exact w :
  exists l w',
    CircuitBreakerMonitor.get_closed w = (Ok l, w')
    /\ only_read w w'
    /\ forall a, a ∈ l <-> registered w a /\ _state (heap w a) = STATE_CLOSED.
Proof.
  unfold CircuitBreakerMonitor.get_closed, CircuitBreakerMonitor.get_circuits.
  unfold bind at 1.
  destruct (select_closed_run (map_to_list (circuit_breakers w)).*2 w)
    as (w' & E & R).
  eexists; exists w'. split; [exact E |]. split; [exact R |].
  intros a. rewrite list_elem_of_In, filter_In, <- list_elem_of_In.
  now rewrite get_circuits_registered, state_eqb_eq.
Qed.

(** X2: [get_open()] never raises, reads and writes nothing but the clock,
    and every breaker it yields is registered and stores OPEN; so
    [all_closed()] is true whenever no registered breaker stores OPEN, the
    empty monitor included. *)
Theorem get_open_sound w :
  exists l w',
    CircuitBreakerMonitor.get_open w = (Ok l, w')
    /\ only_read w w'
    /\ (forall a, a ∈ l -> registered w a /\ _state (heap w a) = STATE_OPEN)
    /\ ((forall a, registered w a -> _state (heap w a) <> STATE_OPEN)
        -> fst (CircuitBreakerMonitor.all_closed w) = Ok true)
    /\ (circuit_breakers w = ∅
        -> fst (CircuitBreakerMonitor.all_closed w) = Ok true).
Proof.
  unfold CircuitBreakerMonitor.all_closed, CircuitBreakerMonitor.get_open,
    CircuitBreakerMonitor.get_circuits.
  destruct (select_opened_run (map_to_list (circuit_breakers w)).*2 w)
    as (l & w' & E & R & Sd & _).
  assert (forall a, a ∈ l ->
            registered w a /\ _state (heap w a) = STATE_OPEN) as Sd'.
  { intros a Ha. destruct (Sd a Ha) as [H1 H2].
    split; [now apply get_circuits_registered | exact H2]. }
  assert ((forall a, registered w a -> _state (heap w a) <> STATE_OPEN)
          -> l = []) as None_open.
  { intros H. destruct l as [| a l]; [reflexivity |].
    destruct (Sd' a) as [H1 H2]; [apply elem_of_cons; now left |].
    now destruct (H a H1). }
  exists l, w'. unfold bind at 1. split; [exact E |]. split; [exact R |].
  split; [exact Sd' |]. unfold bind, ret. rewrite E. cbn [fst]. split.
  - intros H. now rewrite (None_open H).
  - intros H. rewrite None_open; [reflexivity |].
    intros a (n & Hn). rewrite H in Hn. now rewrite lookup_empty in Hn.
Qed.

(** X3: while the clock stands at one instant, [get_open()] yields exactly
    the registered breakers whose [opened] is true at that instant, and
    [all_closed()] is true exactly when [opened] is false for every
    registered breaker: a breaker in HALF_OPEN does not keep it from being
    true. *)
Theorem get_open_at_instant w t :
  (forall k, clock w k = t) ->
  exists l,
    fst (CircuitBreakerMonitor.get_open w) = Ok l
    /\ (forall a, a ∈ l <-> registered w a /\ fst (opened a w) = Ok true)
    /\ (fst (CircuitBreakerMonitor.all_closed w) = Ok true
        <-> forall a, registered w a -> fst (opened a w) = Ok false).
Proof.
  intros Ht.
  unfold CircuitBreakerMonitor.all_closed, CircuitBreakerMonitor.get_open,
    CircuitBreakerMonitor.get_circuits.
  destruct (select_opened_run (map_to_list (circuit_breakers w)).*2 w)
    as (l & w' & E & _ & _ & Ex).
  specialize (Ex t Ht).
  assert (forall a, fst (opened a w)
                    = Ok (state_eqb (derived (heap w a) (seconds t))
                            STATE_OPEN)) as Op.
  { intros a. rewrite opened_run. unfold now. now rewrite Ht. }
  assert (forall a, a ∈ l <-> registered w a /\ fst (opened a w) = Ok true)
    as Mem.
  { intros a. rewrite Ex, list_elem_of_In, filter_In, <- list_elem_of_In.
    rewrite get_circuits_registered, Op. split.
    - intros [H1 H2]. now rewrite H2.
    - intros [H1 H2]. split; [exact H1 | congruence]. }
  exists l. unfold bind at 1. rewrite E. cbn [fst].
  split; [reflexivity |]. split; [exact Mem |].
  unfold bind, ret. rewrite E. cbn [fst]. split.
  - intros H a Ra. destruct l as [| c l]; [| discriminate].
    rewrite Op. destruct (state_eqb _ _) eqn:D; [| reflexivity].
    assert (a ∈ @nil addr) as Hin by (apply Mem; now rewrite Op, D).
    now apply elem_of_nil in Hin.
  - intros H. destruct l as [| c l]; [reflexivity |].
    assert (c ∈ c :: l) as Hin by (apply elem_of_cons; now left).
    apply Mem in Hin. destruct Hin as [Rc Oc].
    rewrite (H c Rc) in Oc. discriminate.
Qed.

(** X4: [register] stores the breaker under its current name and [get]
    finds it there; other names are as before, so a breaker that was known
    by that name alone is no longer registered; a name that was never
    registered gives [None], no exception. *)
Theorem register_then_get cb w :
  let n := _name (heap w cb) in
  let w' := snd (CircuitBreakerMonitor.register cb w) in
  fst (CircuitBreakerMonitor.get n w') = Ok (Some cb)
  /\ (forall m, m <> n ->
      fst (CircuitBreakerMonitor.get m w') = fst (CircuitBreakerMonitor.get m w))
  /\ (forall a, registered w' a
      <-> a = cb \/ exists m, m <> n /\ circuit_breakers w !! m = Some a)
  /\ (forall m, circuit_breakers w !! m = None ->
      fst (CircuitBreakerMonitor.get m w) = Ok None)
  /\ heap w' = heap w.
Proof.
  cbv zeta.
  unfold CircuitBreakerMonitor.register, CircuitBreakerMonitor.get, name,
    getattr, bind, registered.
  cbn [fst snd circuit_breakers heap with_circuit_breakers].
  split; [now rewrite lookup_insert_eq |].
  split; [intros m Hm; now rewrite lookup_insert_ne by congruence |].
  split; [| split; [intros m ->; reflexivity | reflexivity]].
  intros a. split.
  - intros (m & Hm).
    destruct (decide (m = _name (heap w cb))) as [-> | N].
    + rewrite lookup_insert_eq in Hm. left. congruence.
    + rewrite lookup_insert_ne in Hm by congruence. right. now exists m.
  - intros [-> | (m & N & Hm)].
    + exists (_name (heap w cb)). now rewrite lookup_insert_eq.
    + exists m. now rewrite lookup_insert_ne by congruence.
Qed.

End MonitorProperties.

(** ** Decoration *)

Section DecorationProperties.
Context {S A V : Type}.
Implicit Types (w : World S) (self : addr) (function : @pyfunction S A V).

Lemma decorate_run self function w :
  let b := heap w self in
  let w1 := match _name b with
            | None => store self (with_name (Some (__name__ function)) b) w
            | Some _ => w
            end in
  decorate self function w =
  (Ok (fun args => call self function args),
   with_circuit_breakers
     (<[_name (heap w1 self) := self]> (circuit_breakers w1)) w1).
Proof.
  cbv zeta.
  unfold decorate, CircuitBreakerMonitor.register, name, setattr, getattr,
    bind, ret.
  destruct (_name (heap w self)); reflexivity.
Qed.

(** X5: [decorate] names an unnamed breaker after the function and keeps a
    name that was given; it registers the breaker under that name, where
    [get] finds it; it returns a wrapper that is [call] on this breaker and
    function; and it leaves the count, the stored state, the opening
    instant, the configuration and every other breaker as they were. *)
Theorem decorate_names_and_registers self function w :
  let b := heap w self in
  let n := match _name b with
           | Some given => given
           | None => __name__ function
           end in
  let w' := snd (decorate self function w) in
  _name (heap w' self) = Some n
  /\ fst (CircuitBreakerMonitor.get (Some n) w') = Ok (Some self)
  /\ (exists wrapper,
        fst (decorate self function w) = Ok wrapper
        /\ forall args w0, wrapper args w0 = call self function args w0)
  /\ heap w' self = with_name (Some n) b
  /\ (forall a, a <> self -> heap w' a = heap w a)
  /\ (forall m, m <> Some n ->
      fst (CircuitBreakerMonitor.get m w') = fst (CircuitBreakerMonitor.get m w)).
Proof.
  cbv zeta. rewrite decorate_run. cbv zeta.
  unfold CircuitBreakerMonitor.get.
  cbn [fst snd heap circuit_breakers with_circuit_breakers].
  destruct (_name (heap w self)) as [given |] eqn:N.
  - rewrite N. rewrite lookup_insert_eq.
    do 2 (split; [reflexivity |]).
    split; [eexists; split; [reflexivity | reflexivity] |].
    split; [destruct (heap w self); cbn in N |- *; now rewrite N |].
    split; [reflexivity |].
    intros m Hm. now rewrite lookup_insert_ne by congruence.
  - rewrite heap_store_eq. cbn [_name with_name].
    rewrite lookup_insert_eq.
    do 2 (split; [reflexivity |]).
    split; [eexists; split; [reflexivity | reflexivity] |].
    split; [reflexivity |].
    split; [intros a Ha; now apply heap_store_ne |].
    intros m Hm. rewrite lookup_insert_ne by congruence. reflexivity.
Qed.

(** X6: a breaker that went through [decorate] once can decorate any other
    function without a trace: the world after the second decoration is the
    world after the first, so the two wrappers share one breaker, its name
    (the first function's, when none was given) and its registration. *)
Theorem decorate_again_changes_nothing self (f g : @pyfunction S A V) w :
  snd (decorate self g (snd (decorate self f w))) = snd (decorate self f w).
Proof.
  rewrite (decorate_run self f w). cbv zeta. cbn [snd].
  set (w1 := match _name (heap w self) with
             | Some _ => w
             | None => _
             end).
  assert (exists k, _name (heap w1 self) = Some k) as [k Hk].
  { unfold w1. destruct (_name (heap w self)) as [given |] eqn:N.
    - now exists given.
    - rewrite heap_store_eq. now eexists. }
  rewrite decorate_run. cbv zeta.
  cbn [snd heap circuit_breakers with_circuit_breakers].
  rewrite Hk. cbn [heap circuit_breakers with_circuit_breakers].
  rewrite Hk. rewrite insert_insert_eq. reflexivity.
Qed.

End DecorationProperties.

(** ** What a call touches *)

Section CallFrames.
Context {S A V : Type}.
Implicit Types (w : World S) (self : addr) (func : @pyfunction S A V).

Lemma call_fields self func args w :
  let b' := heap (snd (call self func args w)) self in
  _failure_threshold b' = _failure_threshold (heap w self)
  /\ _recovery_timeout b' = _recovery_timeout (heap w self)
  /\ _expected_exception b' = _expected_exception (heap w self)
  /\ _name b' = _name (heap w self).
Proof.
  cbv zeta. rewrite call_heap. cbv zeta.
  destruct (state_eqb _ _); [now repeat split |].
  destruct (fst (body func args (env w))); [now repeat split |].
  destruct (isinstance _ _); [| now repeat split].
  unfold failed. now destruct (_ <=? _).
Qed.

(** X7: whatever happens in it, a call never changes the breaker's
    threshold, recovery timeout, guarded exception class or name, never
    touches another breaker, and never changes the monitor or the clock. *)
Theorem call_keeps_configuration self func args w :
  let w' := snd (call self func args w) in
  _failure_threshold (heap w' self) = _failure_threshold (heap w self)
  /\ _recovery_timeout (heap w' self) = _recovery_timeout (heap w self)
  /\ _expected_exception (heap w' self) = _expected_exception (heap w self)
  /\ _name (heap w' self) = _name (heap w self)
  /\ (forall a, a <> self -> heap w' a = heap w a)
  /\ circuit_breakers w' = circuit_breakers w
  /\ clock w' = clock w.
Proof.
  cbv zeta.
  destruct (call_fields self func args w) as (H1 & H2 & H3 & H4).
  do 4 (split; [assumption |]).
  split; [intros a Ha; now apply call_frame |].
  apply call_registry_and_clock.
Qed.

(** X8: a call made while the derived state is OPEN is rejected without a
    trace on any breaker: no record changes, so rejected calls are not
    counted as failures; the environment and the monitor stay as they
    were. *)
Theorem rejected_call_changes_no_breaker self func args w :
  fst (state self w) = Ok STATE_OPEN ->
  let r := call self func args w in
  fst r = Raise (CircuitBreakerError self)
  /\ (forall a, heap (snd r) a = heap w a)
  /\ env (snd r) = env w
  /\ circuit_breakers (snd r) = circuit_breakers w.
Proof.
  cbv zeta. rewrite state_run. cbn [fst]. intros D. injection D as D.
  split; [| split; [| split]].
  - rewrite call_result, D. reflexivity.
  - intros a. destruct (Nat.eq_dec a self) as [-> | N].
    + rewrite call_heap. cbv zeta. now rewrite D.
    + now apply call_frame.
  - rewrite call_env, D. reflexivity.
  - apply call_registry_and_clock.
Qed.

(** X9: what a call sends to the stats sink.  It always ends with one state
    event, and that event says CLOSED exactly when CLOSED is stored after
    the call.  Before it comes one failure event on a rejection (with OPEN)
    and on a guarded failure (with the state stored before the call), one
    success event on a normal return (with the state stored before the
    reset), and nothing on an unguarded failure. *)
Theorem call_reports self func args w :
  let b := heap w self in
  let r := call self func args w in
  exists st,
    stats (snd r) =
    stats w
    ++ match fst (state self w) with
       | Ok STATE_OPEN => [FailureTotalEvent (_name b) STATE_OPEN]
       | _ =>
           match fst (body func args (env w)) with
           | inl _ => [SuccessTotalEvent (_name b) (_state b)]
           | inr x =>
               if isinstance x (_expected_exception b)
               then [FailureTotalEvent (_name b) (_state b)]
               else []
           end
       end
    ++ [StateEvent (_name b) st]
    /\ (st = STATE_CLOSED <-> _state (heap (snd r) self) = STATE_CLOSED)
    /\ fst r = match fst (state self w) with
               | Ok STATE_OPEN => Raise (CircuitBreakerError self)
               | _ =>
                   match fst (body func args (env w)) with
                   | inl v => Ok v
                   | inr x => Raise x
                   end
               end.
Proof.
  cbv zeta.
  assert (forall w0 : World S, stats (after_state self w0) = stats w0) as Sa.
  { intros w0. unfold after_state. now destruct (state_eqb _ _). }
  rewrite call_heap, call_result, state_run. cbv zeta. cbn [fst].
  rewrite call_run. cbv zeta. unfold reported.
  assert (forall (T : Type) (x y : T),
            match derived (heap w self) (now w) with
            | STATE_OPEN => x
            | _ => y
            end
            = if state_eqb (derived (heap w self) (now w)) STATE_OPEN
              then x else y) as Hm
    by (intros; now destruct (derived (heap w self) (now w))).
  rewrite !Hm. clear Hm.
  destruct (state_eqb (derived (heap w self) (now w)) STATE_OPEN) eqn:D;
    [| destruct (fst (body func args (env w))) as [v | x];
       [rewrite call_succeeded_run
       | destruct (isinstance x _) eqn:G;
         [rewrite call_failed_run; cbv zeta; unfold failed |]]];
    cbn [snd];
    repeat first [rewrite heap_after_state | rewrite Sa | progress wsimpl].
  - apply state_eqb_eq, derived_open_iff in D; [| apply now_finite].
    destruct D as [St _].
    rewrite St. eexists. split; [rewrite <- List.app_assoc; reflexivity |].
    split; [| reflexivity].
    rewrite derived_closed_iff. now rewrite St.
  - eexists. split; [rewrite <- List.app_assoc; reflexivity |].
    split; [| reflexivity].
    now rewrite derived_closed_iff.
  - destruct (_failure_threshold (heap w self) <=? _);
      repeat first [rewrite heap_after_state | rewrite Sa | progress wsimpl];
      (eexists; split; [rewrite <- List.app_assoc; reflexivity |]);
      (split; [| reflexivity]);
      now rewrite derived_closed_iff.
  - eexists. split; [reflexivity |]. split; [| reflexivity].
    now rewrite derived_closed_iff.
Qed.

End CallFrames.

(** ** The count as a streak *)

Section Streaks.
Context {S A V : Type}.
Implicit Types (w : World S) (self : addr) (func : @pyfunction S A V).

(** How a call goes: rejected at its first line, or as the operation
    ends, an exception counting as a guarded failure when it is an instance
    of the class [cls]. *)
Inductive outcome := Rejected | Returned | GuardedFailure | UnguardedFailure.

Definition outcome_of (st : Res state_name) (cls : pyclass) (r : V + exn)
    : outcome :=
  match st with
  | Ok STATE_OPEN => Rejected
  | _ =>
      match r with
      | inl _ => Returned
      | inr x => if isinstance x cls then GuardedFailure else UnguardedFailure
      end
  end.

(** Calls made one after the other on one breaker, each with its own
    operation; the outcomes in the order of the calls. *)
Fixpoint run (ops : list (@pyfunction S A V * A)) self w
    : list outcome * World S :=
  match ops with
  | [] => ([], w)
  | (func, args) :: rest =>
      let r := call self func args w in
      let after := run rest self (snd r) in
      (outcome_of (fst (state self w)) (_expected_exception (heap w self))
         (fst (body func args (env w))) :: fst after,
       snd after)
  end.

(** Guarded failures since the last normal return. *)
Definition streak_step (n : Z) (o : outcome) : Z :=
  match o with
  | Returned => 0
  | GuardedFailure => n + 1
  | Rejected | UnguardedFailure => n
  end.
Definition streak (os : list outcome) : Z := fold_left streak_step os 0.

Lemma run_streak ops self :
  forall w n,
    _failure_count (heap w self) = n ->
    0 <= n ->
    (_state (heap w self) = STATE_OPEN
     <-> 1 <= n /\ _failure_threshold (heap w self) <= n) ->
    (_state (heap w self) = STATE_CLOSED \/ _state (heap w self) = STATE_OPEN) ->
    n + Z.of_nat (length ops) <= INT_MAX ->
    let b' := heap (snd (run ops self w)) self in
    let n' := fold_left streak_step (fst (run ops self w)) n in
    _failure_count b' = n'
    /\ (_state b' = STATE_OPEN
        <-> 1 <= n' /\ _failure_threshold (heap w self) <= n')
    /\ (_state b' = STATE_CLOSED \/ _state b' = STATE_OPEN).
Proof.
  induction ops as [| [func args] ops IH]; intros w n Hc Hn Ho Hs Hl.
  - cbn. now repeat split; try apply Ho.
  - cbn [run fst snd fold_left]. cbv zeta.
    cbn [length] in Hl. rewrite Nat2Z.inj_succ in Hl.
    pose proof (call_heap self func args w) as Hh.
    cbv zeta in Hh.
    set (w1 := snd (call self func args w)) in *.
    set (o := outcome_of (fst (state self w))
                (_expected_exception (heap w self))
                (fst (body func args (env w)))).
    assert (_failure_count (heap w1 self) = streak_step n o
            /\ 0 <= streak_step n o <= n + 1
            /\ (_state (heap w1 self) = STATE_OPEN
                <-> 1 <= streak_step n o
                    /\ _failure_threshold (heap w self) <= streak_step n o)
            /\ (_state (heap w1 self) = STATE_CLOSED
                \/ _state (heap w1 self) = STATE_OPEN)
            /\ _failure_threshold (heap w1 self)
               = _failure_threshold (heap w self)) as (K1 & K2 & K3 & K4 & K5).
    { unfold o. rewrite Hh, state_run. clear Hh. cbn [fst].
      assert (outcome_of (Ok (derived (heap w self) (now w)))
                (_expected_exception (heap w self))
                (fst (body func args (env w)))
              = if state_eqb (derived (heap w self) (now w)) STATE_OPEN
                then Rejected
                else outcome_of (Ok STATE_CLOSED)
                       (_expected_exception (heap w self))
                       (fst (body func args (env w)))) as ->
        by now destruct (derived (heap w self) (now w)).
      destruct (state_eqb (derived (heap w self) (now w)) STATE_OPEN).
      { cbn [streak_step]. intuition lia. }
      destruct (fst (body func args (env w))) as [v | x].
      { cbn [outcome_of streak_step succeeded with_failure_count with_state
             _failure_count _state _failure_threshold].
        change (c_int 0) with 0.
        intuition (try lia; try discriminate). }
      cbn [outcome_of].
      destruct (isinstance x _).
      - cbn [streak_step]. rewrite failed_in_range by lia. rewrite Hc.
        destruct (Z.leb_spec (_failure_threshold (heap w self)) (n + 1));
          cbn [_failure_count _state _failure_threshold with_failure_count];
          intuition (try lia; try discriminate).
      - cbn [streak_step]. intuition lia. }
    rewrite <- K5 in K3.
    destruct (IH w1 (streak_step n o) K1 ltac:(lia) K3 K4 ltac:(lia))
      as (R1 & R2 & R3).
    rewrite K5 in R2. now repeat split; try apply R2.
Qed.

(** X10: from a breaker that stores CLOSED with a count of 0, after any
    calls (fewer than 2^31 of them) the failure count is the number of
    guarded failures since the last normal return, rejected calls and
    unguarded failures not counting; and OPEN is stored exactly when that
    number is at least 1 and has reached the threshold. *)
Theorem failure_count_is_streak ops self w :
  _state (heap w self) = STATE_CLOSED ->
  _failure_count (heap w self) = 0 ->
  Z.of_nat (length ops) <= INT_MAX ->
  let b' := heap (snd (run ops self w)) self in
  let n := streak (fst (run ops self w)) in
  _failure_count b' = n
  /\ (_state b' = STATE_OPEN
      <-> 1 <= n /\ _failure_threshold (heap w self) <= n)
  /\ (_state b' = STATE_CLOSED \/ _state b' = STATE_OPEN).
Proof.
  intros St C0 Hl. apply run_streak; try assumption; try lia.
  - rewrite St. split; [discriminate | lia].
  - now left.
Qed.

(** X11: a guarded failure met while CLOSED is stored (count within the
    counter's range) is re-raised and counted; it opens the breaker, stamped
    with the clock read of that moment, exactly when the new count reaches
    the threshold, so at the first failure for any threshold of 1 or below;
    otherwise CLOSED stays and [_opened] is not touched. *)
Theorem guarded_failure_while_closed self func args w x :
  _state (heap w self) = STATE_CLOSED ->
  0 <= _failure_count (heap w self) < INT_MAX ->
  fst (body func args (env w)) = inr x ->
  isinstance x (_expected_exception (heap w self)) = true ->
  let b := heap w self in
  let r := call self func args w in
  let b' := heap (snd r) self in
  fst r = Raise x
  /\ _failure_count b' = _failure_count b + 1
  /\ (_failure_threshold b <= _failure_count b + 1 ->
      _state b' = STATE_OPEN /\ _opened b' = now w)
  /\ (_failure_count b + 1 < _failure_threshold b ->
      _state b' = STATE_CLOSED /\ _opened b' = _opened b).
Proof.
  cbv zeta. intros St Hc B G.
  assert (derived (heap w self) (now w) = STATE_CLOSED) as D
    by now apply derived_closed_iff.
  rewrite call_result, call_heap. cbv zeta. rewrite D, B, G.
  cbn [state_eqb]. rewrite failed_in_range by lia.
  unfold failure_instant, after_state. rewrite St. cbn [state_eqb].
  split; [reflexivity |].
  destruct (Z.leb_spec (_failure_threshold (heap w self))
              (_failure_count (heap w self) + 1));
    cbn [_failure_count _state _opened with_failure_count];
    repeat split; try reflexivity; try lia; try assumption; intros; lia.
Qed.

End Streaks.

(** ** Time *)

Section Time.
Context {S : Type}.
Implicit Types (w : World S) (self : addr).

(** X12: between two reads of the same fields, the later one no earlier on
    the clock, recovery only goes forward: HALF_OPEN stays HALF_OPEN, a
    breaker that reads OPEN later read OPEN before, and CLOSED is read at
    both instants or at neither. *)
Theorem recovery_goes_forward self w w' :
  heap w' self = heap w self ->
  (now w <=? now w')%float = true ->
  (fst (state self w) = Ok STATE_HALF_OPEN ->
   fst (state self w') = Ok STATE_HALF_OPEN)
  /\ (fst (state self w') = Ok STATE_OPEN ->
      fst (state self w) = Ok STATE_OPEN)
  /\ (fst (state self w) = Ok STATE_CLOSED
      <-> fst (state self w') = Ok STATE_CLOSED).
Proof.
  intros Hh Ht. rewrite !state_run. cbn [fst]. rewrite Hh.
  pose proof (now_finite w) as F. pose proof (now_finite w') as F'.
  split; [| split].
  - intros H. injection H as H. f_equal.
    apply derived_half_open_iff in H; [| exact F].
    apply derived_half_open_iff; [exact F' |].
    destruct H as [H1 H2]. split; [exact H1 |]. intros E.
    specialize (H2 E). exact (leb_trans _ _ _ H2 Ht).
  - intros H. injection H as H. f_equal.
    apply derived_open_iff in H; [| exact F'].
    apply derived_open_iff; [exact F |].
    destruct H as [H1 H2]. split; [exact H1 |].
    exact (leb_ltb_false _ _ _ Ht H2).
  - split; intros H; injection H as H; f_equal;
      apply derived_closed_iff in H; now apply derived_closed_iff.
Qed.

End Time.

(** ** The [circuit] function *)

Section Circuit.
Context {S A V : Type}.
Implicit Types (w : World S).

(** What [circuit] gets as its first argument: the function to wrap when the
    decorator is used bare, a threshold or nothing otherwise; and what it
    returns: a wrapper in the first case, the new breaker in the second. *)
Inductive circuit_argument :=
| Callable (function : @pyfunction S A V)
| Threshold (failure_threshold : option Z).
Inductive circuit_result :=
| Wrapper (wrapper : A -> M S V)
| Breaker (cb : addr).

(** [circuit], with [cls] the [CircuitBreaker] class; [fresh] is the address
    of the object that [cls(...)] creates. *)
Definition circuit (fresh : addr) (failure_threshold : circuit_argument)
    (recovery_timeout : option float) (expected_exception : option pyclass)
    (name : option string) : M S circuit_result :=
  match failure_threshold with
  | Callable function =>
      __init__ fresh None None None None ;;
      wrapper <- decorate fresh function ;;
      ret (Wrapper wrapper)
  | Threshold failure_threshold =>
      __init__ fresh failure_threshold recovery_timeout expected_exception
        name ;;
      ret (Breaker fresh)
  end.

Lemma init_run fresh ft rt ee nm w :
  exists w',
    __init__ fresh ft rt ee nm w = (Ok tt, w')
    /\ heap w' fresh =
       mkCircuitBreaker (c_int 0) (or_int ft FAILURE_THRESHOLD)
         (or_seconds rt RECOVERY_TIMEOUT) (or_class ee EXPECTED_EXCEPTION) nm
         STATE_CLOSED (now w)
    /\ (forall a, a <> fresh -> heap w' a = heap w a)
    /\ circuit_breakers w' = circuit_breakers w.
Proof.
  unfold __init__, setattr, utcnow, bind. eexists.
  split; [reflexivity |]. split; [wsimpl; reflexivity |].
  split; [| reflexivity].
  intros a Ha.
  repeat first [rewrite heap_store_ne by assumption | progress wsimpl].
  reflexivity.
Qed.

(** X13: used bare on a function, [circuit] ignores its other arguments: it
    returns a wrapper that is [call] on a new breaker with the class
    defaults (5 failures, 30 seconds, [Exception]), CLOSED with a count of
    0, named after the function and registered under that name.  Given
    parameters instead, it returns the new breaker built from them and
    registers nothing. *)
Theorem circuit_bare_or_configured fresh rt ee nm w :
  (forall function,
     let r := circuit fresh (Callable function) rt ee nm w in
     (exists wrapper,
        fst r = Ok (Wrapper wrapper)
        /\ forall args w0, wrapper args w0 = call fresh function args w0)
     /\ heap (snd r) fresh =
        mkCircuitBreaker 0 5 30 "Exception" (Some (__name__ function))
          STATE_CLOSED (now w)
     /\ fst (CircuitBreakerMonitor.get (Some (__name__ function)) (snd r))
        = Ok (Some fresh))
  /\ (forall ft,
        let r := circuit fresh (Threshold ft) rt ee nm w in
        fst r = Ok (Breaker fresh)
        /\ heap (snd r) fresh =
           mkCircuitBreaker 0 (or_int ft 5) (or_seconds rt 30)
             (or_class ee "Exception") nm STATE_CLOSED (now w)
        /\ circuit_breakers (snd r) = circuit_breakers w).
Proof.
  split.
  - intros function. cbv zeta. unfold circuit.
    destruct (init_run fresh None None None None w) as (w1 & E & H1 & _).
    unfold bind, ret. rewrite E, decorate_run. cbv zeta. cbn [fst snd].
    rewrite H1. cbn [_name or_int or_seconds or_class].
    rewrite heap_store_eq. cbn [_name with_name].
    split; [eexists; split; reflexivity |].
    split; [cbn [heap with_circuit_breakers]; now rewrite heap_store_eq |].
    unfold CircuitBreakerMonitor.get.
    cbn [fst circuit_breakers with_circuit_breakers].
    now rewrite lookup_insert_eq.
  - intros ft. cbv zeta. unfold circuit.
    destruct (init_run fresh ft rt ee nm w) as (w1 & E & H1 & _ & H3).
    unfold bind, ret. rewrite E. cbn [fst snd].
    split; [reflexivity |]. split; [exact H1 | exact H3].
Qed.

End Circuit.

(** ** Instances of the further properties *)

(** The world [w] with its clock stopped at [t]. *)
Definition stopped (t : instant) (w : World unit) : World unit :=
  mkWorld (fun _ => t) (ticks w) (heap w) (circuit_breakers w) (stats w)
    (env w).

(** X3 on the script's breaker, opened at second 100 and watched at second
    108: no breaker is [opened]. *)
Lemma get_open_at_instant_witness :
  let w := stopped (second 108)
             (calls 8 0%nat test tt (decorated (fun _ => second 100))) in
  (forall k, clock w k = second 108)
  /\ fst (state 0%nat w) = Ok STATE_HALF_OPEN
  /\ exists l,
       fst (CircuitBreakerMonitor.get_open w) = Ok l
       /\ (forall a, a ∈ l <-> registered w a /\ fst (opened a w) = Ok true)
       /\ (fst (CircuitBreakerMonitor.all_closed w) = Ok true
           <-> forall a, registered w a -> fst (opened a w) = Ok false).
Proof.
  cbv zeta. split; [intros k; reflexivity |]. split; [reflexivity |].
  apply (get_open_at_instant _ (second 108)). intros k. reflexivity.
Defined.

(** X8 on the script's breaker while open. *)
Lemma rejected_call_changes_no_breaker_witness :
  let w := calls 8 0%nat test tt (decorated (every 1)) in
  let r := call 0%nat test tt w in
  fst (state 0%nat w) = Ok STATE_OPEN
  /\ fst r = Raise (CircuitBreakerError 0%nat)
  /\ _failure_count (heap (snd r) 0%nat) = 8.
Proof.
  cbv zeta. split; [reflexivity |].
  destruct (rejected_call_changes_no_breaker 0%nat test tt
              (calls 8 0%nat test tt (decorated (every 1))) eq_refl)
    as (E1 & E2 & _).
  split; [exact E1 |]. now rewrite E2.
Defined.

(** X10 on the script's breaker: two failures, an answer, an interrupt and
    one more failure leave a count of 1. *)
Lemma failure_count_is_streak_witness :
  let ops := [(test, tt); (test, tt); (answer, tt); (interrupted, tt);
              (test, tt)] in
  let w := decorated (every 1) in
  (_state (heap w 0%nat) = STATE_CLOSED /\ _failure_count (heap w 0%nat) = 0)
  /\ fst (run ops 0%nat w)
     = [GuardedFailure; GuardedFailure; Returned; UnguardedFailure;
        GuardedFailure]
  /\ _failure_count (heap (snd (run ops 0%nat w)) 0%nat) = 1.
Proof.
  cbv zeta. split; [split; reflexivity |]. split; [reflexivity |].
  destruct (failure_count_is_streak
              [(test, tt); (test, tt); (answer, tt); (interrupted, tt);
               (test, tt)] 0%nat (decorated (every 1)) eq_refl eq_refl
              ltac:(discriminate)) as (E & _).
  exact E.
Defined.

(** X11 on the script's breaker: its first failure is counted and leaves it
    CLOSED. *)
Lemma guarded_failure_while_closed_witness :
  let w := decorated (every 1) in
  let r := call 0%nat test tt w in
  (_state (heap w 0%nat) = STATE_CLOSED
   /\ 0 <= _failure_count (heap w 0%nat) < INT_MAX)
  /\ fst r = Raise (ValueError "sorry rogan")
  /\ _failure_count (heap (snd r) 0%nat) = 1
  /\ _state (heap (snd r) 0%nat) = STATE_CLOSED.
Proof.
  cbv zeta.
  assert (H : 0 <= _failure_count (heap (decorated (every 1)) 0%nat)
              < INT_MAX) by (split; [discriminate | reflexivity]).
  split; [split; [reflexivity | exact H] |].
  destruct (guarded_failure_while_closed 0%nat test tt (decorated (every 1))
              (ValueError "sorry rogan") eq_refl H eq_refl eq_refl)
    as (E1 & E2 & _ & E4).
  split; [exact E1 | split; [exact E2 |]].
  apply E4. reflexivity.
Defined.

(** The script's breaker as its eighth failure, at second 64, leaves it. *)
Definition tripped : CircuitBreaker :=
  mkCircuitBreaker 8 8 8 "ValueError" (Some "rogan-tset"%string) STATE_OPEN 64.

(** X12 on the script's breaker after its eighth failure at second 64:
    HALF_OPEN at second 72 and still at second 200. *)
Lemma recovery_goes_forward_witness :
  (now (holding tripped (second 72)) <=? now (holding tripped (second 200)))
    %float = true
  /\ fst (state 0%nat (holding tripped (second 72))) = Ok STATE_HALF_OPEN
  /\ fst (state 0%nat (holding tripped (second 200))) = Ok STATE_HALF_OPEN.
Proof.
  assert (H : (now (holding tripped (second 72))
               <=? now (holding tripped (second 200)))%float = true)
    by reflexivity.
  destruct (recovery_goes_forward 0%nat (holding tripped (second 72))
              (holding tripped (second 200)) eq_refl H) as (E & _).
  split; [exact H | split; [reflexivity | exact (E eq_refl)]].
Defined.

(** ** What every breaker keeps *)

Lemma c_int_range z : INT_MIN <= c_int z <= INT_MAX.
Proof.
  unfold c_int, INT_MIN, INT_MAX.
  pose proof (Z.mod_pos_bound (z + 2147483648) 4294967296 eq_refl). lia.
Qed.

Lemma or_int_nonzero x d : d <> 0 -> or_int x d <> 0.
Proof.
  intros Hd. destruct x as [v |]; cbn; [| exact Hd].
  destruct (Z.eqb_spec v 0); assumption.
Qed.

Lemma or_seconds_nonzero x d :
  (d =? 0)%float = false -> (or_seconds x d =? 0)%float = false.
Proof.
  intros Hd. destruct x as [v |]; cbn [or_seconds]; [| exact Hd].
  now destruct (v =? 0)%float eqn:E.
Qed.

Section Kept.
Context {S A V : Type}.

(** X14: in every reachable breaker the failure count is within the range
    of a C int, and neither the threshold nor the recovery timeout is zero:
    the constructor replaces a zero by the default and nothing changes them
    afterwards (a negative value, on the other hand, is kept). *)
Theorem reachable_configuration b :
  reachable (S := S) (A := A) (V := V) b ->
  INT_MIN <= _failure_count b <= INT_MAX
  /\ _failure_threshold b <> 0
  /\ (_recovery_timeout b =? 0)%float = false.
Proof.
  induction 1 as [self ft rt ee nm w | self func w _ IH
                 | self func args w _ IH].
  - rewrite init_heap.
    cbn [_failure_count _failure_threshold _recovery_timeout].
    split; [apply c_int_range |]. split.
    + now apply or_int_nonzero.
    + now apply or_seconds_nonzero.
  - rewrite decorate_heap. now destruct (_name (heap w self)).
  - destruct (call_fields self func args w) as (H1 & H2 & _).
    rewrite H1, H2. split; [| apply IH].
    rewrite call_heap. cbv zeta.
    destruct (state_eqb _ _); [apply IH |].
    destruct (fst (body func args (env w))) as [v | x].
    { cbn. split; discriminate. }
    destruct (isinstance _ _); [| apply IH].
    unfold failed.
    destruct (_ <=? _);
      cbn [_failure_count counted with_failure_count with_state with_opened];
      apply c_int_range.
Qed.

End Kept.

(** X14 on the breaker the script builds. *)
Lemma reachable_configuration_witness :
  let b := heap (calls 8 0%nat test tt (decorated (every 10))) 0%nat in
  _failure_count b = 8 /\ _failure_threshold b <> 0
  /\ (_recovery_timeout b =? 0)%float = false.
Proof.
  cbv zeta.
  assert (R : @reachable unit unit unit
                (heap (calls 8 0%nat test tt (decorated (every 10))) 0%nat))
    by (apply in_range_reachable; in_range).
  destruct (reachable_configuration _ R) as (_ & E2 & E3).
  split; [reflexivity | split; [exact E2 | exact E3]].
Defined.
